(** * The incremental retrieval engine of [GeminiRepository]

    A shallow embedding of the embedding cache, the fingerprint
    ([computeCodehash]), the batch refresh and the nearest-neighbour ranking
    of [findClosestDartFiles], with the properties the specification states
    about them.

    Conventions of the model.
    - A JavaScript string is the list of its UTF-16 code units.
    - A JavaScript number is a real number or [NaN]; the rounding, the
      overflow and the underflow of IEEE doubles are outside the model.
    - [this.codehashCache] is a finite map from paths to entries, as the
      type of the field declares; the keys are absolute paths, which never
      name a member of [Object.prototype].  The module [Untyped] follows
      the values instead of the declared type: there the field holds such a
      map or [null], as [JSON.parse] returns it, and the two readings are
      shown to agree unless a cache file holds the JSON text [null].
    - Everything the method obtains from its surroundings (the editor, the
      file system, the remote model) is a field of an environment record;
      every such interaction is recorded, in order, in a trace.
    - The five second timer of [findClosestDartFiles] and the [await] on it
      in [finally] are real time and are not modelled. *)

From Stdlib Require Import ZArith List String Ascii Reals Lra Lia Bool.
From Stdlib Require Import Sorted Permutation.
From stdpp Require Import base option list gmap.
Import ListNotations.

Local Open Scope Z_scope.

(** ** JavaScript strings *)

Abbreviation jsstring := (list Z).

(** An ASCII literal of the source as code units. *)
Fixpoint lit (s : string) : jsstring :=
  match s with
  | EmptyString => []
  | String c s' => Z.of_N (N_of_ascii c) :: lit s'
  end.

(** The class [\s] of a regular expression without the [u] flag: the
    WhiteSpace and LineTerminator code points, all in the basic plane. *)
Definition is_whitespace (c : Z) : bool :=
  (c =? 0x09) || (c =? 0x0A) || (c =? 0x0B) || (c =? 0x0C) || (c =? 0x0D)
  || (c =? 0x20) || (c =? 0xA0) || (c =? 0x1680)
  || ((0x2000 <=? c) && (c <=? 0x200A))
  || (c =? 0x2028) || (c =? 0x2029) || (c =? 0x202F) || (c =? 0x205F)
  || (c =? 0x3000) || (c =? 0xFEFF).

(** [s.replace(/\s+/g, '')]: every maximal run of whitespace is replaced by
    the empty string, which leaves the code units outside [\s]. *)
Definition remove_whitespace (s : jsstring) : jsstring :=
  List.filter (fun c => negb (is_whitespace c)) s.

(** [s.trim()] *)
Fixpoint trim_start (s : jsstring) : jsstring :=
  match s with
  | c :: s' => if is_whitespace c then trim_start s' else s
  | [] => []
  end.

Definition trim (s : jsstring) : jsstring :=
  rev (trim_start (rev (trim_start s))).

(** [s.split('/').pop()]: the part after the last slash. *)
Fixpoint split_pop (s cur : jsstring) : jsstring :=
  match s with
  | [] => cur
  | c :: s' => if c =? 47 then split_pop s' [] else split_pop s' (cur ++ [c])
  end.

Definition basename (p : jsstring) : jsstring := split_pop p [].

(** ** UTF-8, as [hash.update(string)] encodes its argument *)

Definition is_high_surrogate (c : Z) : bool := (0xD800 <=? c) && (c <=? 0xDBFF).
Definition is_low_surrogate (c : Z) : bool := (0xDC00 <=? c) && (c <=? 0xDFFF).

Definition utf8_of_code_point (cp : Z) : list Z :=
  if cp <? 0x80 then [cp]
  else if cp <? 0x800 then
    [Z.lor 0xC0 (Z.shiftr cp 6); Z.lor 0x80 (Z.land cp 0x3F)]
  else if cp <? 0x10000 then
    [Z.lor 0xE0 (Z.shiftr cp 12);
     Z.lor 0x80 (Z.land (Z.shiftr cp 6) 0x3F);
     Z.lor 0x80 (Z.land cp 0x3F)]
  else
    [Z.lor 0xF0 (Z.shiftr cp 18);
     Z.lor 0x80 (Z.land (Z.shiftr cp 12) 0x3F);
     Z.lor 0x80 (Z.land (Z.shiftr cp 6) 0x3F);
     Z.lor 0x80 (Z.land cp 0x3F)].

(** A surrogate pair is one code point; a surrogate on its own is encoded as
    U+FFFD. *)
Fixpoint utf8_encode (s : jsstring) : list Z :=
  match s with
  | [] => []
  | c :: s' =>
    if is_high_surrogate c then
      match s' with
      | d :: s'' =>
        if is_low_surrogate d then
          utf8_of_code_point
            (0x10000 + Z.shiftl (c - 0xD800) 10 + (d - 0xDC00))
          ++ utf8_encode s''
        else utf8_of_code_point 0xFFFD ++ utf8_encode s'
      | [] => utf8_of_code_point 0xFFFD
      end
    else if is_low_surrogate c then utf8_of_code_point 0xFFFD ++ utf8_encode s'
    else utf8_of_code_point c ++ utf8_encode s'
  end.

(** ** SHA-256 (FIPS 180-4), as [crypto.createHash('sha256')] computes it *)

Module SHA256.

Definition w32 (x : Z) : Z := x mod 2 ^ 32.
Definition add32 (x y : Z) : Z := w32 (x + y).
Definition rotr (n x : Z) : Z :=
  Z.lor (Z.shiftr x n) (w32 (Z.shiftl x (32 - n))).
Definition not32 (x : Z) : Z := Z.lxor x 0xFFFFFFFF.

Definition Ch (x y z : Z) : Z := Z.lxor (Z.land x y) (Z.land (not32 x) z).
Definition Maj (x y z : Z) : Z :=
  Z.lxor (Z.lxor (Z.land x y) (Z.land x z)) (Z.land y z).
Definition bsig0 (x : Z) : Z := Z.lxor (Z.lxor (rotr 2 x) (rotr 13 x)) (rotr 22 x).
Definition bsig1 (x : Z) : Z := Z.lxor (Z.lxor (rotr 6 x) (rotr 11 x)) (rotr 25 x).
Definition ssig0 (x : Z) : Z := Z.lxor (Z.lxor (rotr 7 x) (rotr 18 x)) (Z.shiftr x 3).
Definition ssig1 (x : Z) : Z := Z.lxor (Z.lxor (rotr 17 x) (rotr 19 x)) (Z.shiftr x 10).

(** The constants are the leading 32 fractional bits of the square roots
    (initial state) and of the cube roots (round constants) of the first
    primes. *)
Definition is_prime (n : Z) : bool :=
  forallb (fun d => negb (n mod Z.of_nat d =? 0)) (seq 2 (Z.to_nat n - 2)%nat).

Definition primes : list Z :=
  Eval vm_compute in List.filter is_prime (map Z.of_nat (seq 2 310)).

Fixpoint cube_root_bits (bits : nat) (n r : Z) : Z :=
  match bits with
  | O => r
  | S b =>
    let c := r + 2 ^ Z.of_nat b in
    cube_root_bits b n (if c * c * c <=? n then c else r)
  end.

Definition cube_root (n : Z) : Z := cube_root_bits 40 n 0.

Definition H0 : list Z :=
  Eval vm_compute in map (fun p => w32 (Z.sqrt (p * 2 ^ 64))) (firstn 8 primes).

Definition K : list Z :=
  Eval vm_compute in map (fun p => w32 (cube_root (p * 2 ^ 96))) primes.

(** Padding: a one bit, zeros up to 56 modulo 64, the bit length on 8 bytes. *)
Definition be_bytes (n : nat) (x : Z) : list Z :=
  map (fun i => Z.land (Z.shiftr x (8 * Z.of_nat (n - 1 - i)%nat)) 0xFF) (seq 0 n).

Definition pad (msg : list Z) : list Z :=
  let len := Z.of_nat (length msg) in
  let zeros := Z.to_nat ((55 - len) mod 64) in
  msg ++ [0x80] ++ repeat 0 zeros ++ be_bytes 8 (8 * len).

Definition be_word (bs : list Z) : Z :=
  fold_left (fun acc b => Z.lor (Z.shiftl acc 8) b) bs 0.

Definition words_of_block (block : list Z) : list Z :=
  map (fun i => be_word (firstn 4 (skipn (4 * i)%nat block))) (seq 0 16).

Definition blocks (msg : list Z) : list (list Z) :=
  map (fun i => firstn 64 (skipn (64 * i)%nat msg)) (seq 0 (length msg / 64)%nat).

Fixpoint schedule (n : nat) (w : list Z) : list Z :=
  match n with
  | O => w
  | S n' =>
    let t := length w in
    let at_ (k : nat) := nth (t - k)%nat w 0 in
    schedule n'
      (w ++ [add32 (add32 (ssig1 (at_ 2%nat)) (at_ 7%nat))
                   (add32 (ssig0 (at_ 15%nat)) (at_ 16%nat))])
  end.

Definition round (st : list Z) (kw : Z * Z) : list Z :=
  match st with
  | [a; b; c; d; e; f; g; h] =>
    let t1 := add32 (add32 (add32 h (bsig1 e)) (add32 (Ch e f g) (fst kw))) (snd kw) in
    let t2 := add32 (bsig0 a) (Maj a b c) in
    [add32 t1 t2; a; b; c; add32 d t1; e; f; g]
  | _ => st
  end.

Definition compress (st block : list Z) : list Z :=
  let w := schedule 48 (words_of_block block) in
  let st' := fold_left round (combine K w) st in
  map (fun p => add32 (fst p) (snd p)) (combine st st').

Definition digest (msg : list Z) : list Z :=
  flat_map (be_bytes 4) (fold_left compress (blocks (pad msg)) H0).

End SHA256.

(** [digest('hex')] *)
Definition hex_digit (d : Z) : Z := if d <? 10 then 48 + d else 87 + d.

Definition hex (bytes : list Z) : jsstring :=
  flat_map (fun b => [hex_digit (Z.shiftr b 4); hex_digit (Z.land b 0xF)]) bytes.

(** ** The fingerprint *)

Definition computeCodehash (fileContents : jsstring) : jsstring :=
  let normalizedContent := remove_whitespace fileContents in
  hex (SHA256.digest (utf8_encode normalizedContent)).

(** The digest is computed on closed texts only. *)
Arguments computeCodehash : simpl never.

(** ** JavaScript numbers *)

Inductive number :=
| Num (r : R)
| NaN.

(** Reading an array past its end gives [undefined], which arithmetic turns
    into [NaN]. *)
Definition to_number (v : option number) : number := default NaN v.

Definition js_sub (x y : number) : number :=
  match x, y with
  | Num a, Num b => Num (a - b)
  | _, _ => NaN
  end.

Definition js_add (x y : number) : number :=
  match x, y with
  | Num a, Num b => Num (a + b)
  | _, _ => NaN
  end.

Definition Math_pow (x : number) (n : nat) : number :=
  match x with
  | Num a => Num (a ^ n)
  | NaN => NaN
  end.

Definition Math_sqrt (x : number) : number :=
  match x with
  | Num a => if Rlt_dec a 0 then NaN else Num (sqrt a)
  | NaN => NaN
  end.

(** [euclideanDistance(a, b)]: the loop runs over the indices of [a]. *)
Definition euclideanDistance (a b : list number) : number :=
  let sum :=
    fold_left
      (fun sum n =>
         js_add sum (Math_pow (js_sub (to_number (a !! n)) (to_number (b !! n))) 2))
      (seq 0 (length a)) (Num 0) in
  Math_sqrt sum.

(** ** The cache and the object state *)

Record ContentEmbedding := { values : list number }.

Record CacheEntry := {
  codehash : jsstring;
  embedding : ContentEmbedding
}.

Abbreviation Cache := (gmap jsstring CacheEntry).

Record Repo := {
  apiKey : option jsstring;
  codehashCache : Cache
}.

Definition set_cache (c : Cache) (this : Repo) : Repo :=
  {| apiKey := apiKey this; codehashCache := c |}.

(** [!s] for an optional string: [undefined] and the empty string. *)
Definition falsy (s : option jsstring) : bool :=
  match s with
  | None | Some [] => true
  | Some (_ :: _) => false
  end.

(** ** Thrown values and the trace *)

Inductive thrown :=
| ErrorObject (name message : string)
| NonError.

Definition instanceof_Error (e : thrown) : bool :=
  match e with
  | ErrorObject _ _ => true
  | NonError => false
  end.

Definition new_Error (message : string) : thrown := ErrorObject "Error" message.

Inductive event :=
| ConsoleError (label : string) (e : thrown)
| ConsoleLog (label : string) (names : list jsstring)
| ExistsSync (p : jsstring)
| ReadFile (p : jsstring)
| WriteFile (p data : jsstring)
| FindFiles
| OpenTextDocument (uri : jsstring)
| BatchEmbedContents (texts : list jsstring)
| EmbedContent (text : jsstring)
| PostMessage (filePaths : list jsstring).

Definition is_file_io (e : event) : bool :=
  match e with
  | ExistsSync _ | ReadFile _ | WriteFile _ _ | FindFiles | OpenTextDocument _ => true
  | _ => false
  end.

Definition is_batch_request (e : event) : bool :=
  match e with
  | BatchEmbedContents _ => true
  | _ => false
  end.

(** ** Computations: the object state, an outcome, the trace *)

Definition M (A : Type) : Type := Repo -> (thrown + A) * Repo * list event.

Definition ret {A} (a : A) : M A := fun this => (inr a, this, []).

Definition throw {A} (e : thrown) : M A := fun this => (inl e, this, []).

Definition bind {A B} (m : M A) (f : A -> M B) : M B :=
  fun this =>
    match m this with
    | (inl e, this', t) => (inl e, this', t)
    | (inr a, this', t) =>
      let '(r, this'', t') := f a this' in (r, this'', t ++ t')
    end.

Definition try_catch {A} (m : M A) (handler : thrown -> M A) : M A :=
  fun this =>
    match m this with
    | (inl e, this', t) =>
      let '(r, this'', t') := handler e this' in (r, this'', t ++ t')
    | ok => ok
    end.

Definition emit (e : event) : M unit := fun this => (inr tt, this, [e]).

Definition get_cache : M Cache := fun this => (inr (codehashCache this), this, []).

Definition put_cache (c : Cache) : M unit := fun this => (inr tt, set_cache c this, []).

Definition lift {A} (r : thrown + A) : M A :=
  match r with
  | inl e => throw e
  | inr a => ret a
  end.

Declare Scope js_scope.
Delimit Scope js_scope with js.
Notation "x <- m ;; k" := (bind m (fun x => k))
  (at level 100, m at next level, right associativity) : js_scope.
Notation "m ;; k" := (bind m (fun _ => k))
  (at level 100, right associativity) : js_scope.
Local Open Scope js_scope.

Definition result_of {A} (o : (thrown + A) * Repo * list event) : thrown + A := o.1.1.
Definition state_of {A} (o : (thrown + A) * Repo * list event) : Repo := o.1.2.
Definition trace_of {A} (o : (thrown + A) * Repo * list event) : list event := o.2.

(** ** The surroundings of one call *)

Record Env := {
  (** [vscode.workspace.workspaceFolders[0].uri.fsPath], when there is one *)
  workspaceFolder : option jsstring;
  (** [os.tmpdir()] and [path.join] *)
  tmpdir : jsstring;
  path_join : list jsstring -> jsstring;
  (** [fs.existsSync], [fs.promises.readFile], [fs.promises.writeFile] *)
  existsSync : jsstring -> bool;
  readFile : jsstring -> thrown + jsstring;
  writeFile : jsstring -> jsstring -> thrown + unit;
  JSON_stringify : Cache -> jsstring;
  JSON_parse : jsstring -> thrown + Cache;
  (** [findFiles('**/*.dart')]: the paths of the files found; for each of
      them the text of its document and its workspace-relative path *)
  findFiles : thrown + list jsstring;
  openTextDocument : jsstring -> thrown + jsstring;
  asRelativePath : jsstring -> jsstring;
  (** the remote model; the batch request is given its rank in the call *)
  batchEmbedContents : nat -> list jsstring -> thrown + list ContentEmbedding;
  embedContent : jsstring -> thrown + ContentEmbedding
}.

(** ** The values of one call *)

Module FileContent.
Record t := mk {
  text : jsstring;
  path : jsstring;
  codehash : jsstring
}.
End FileContent.

Record Distance := {
  file : jsstring;
  distance : number
}.

(** The template literal that renders a file for the model. *)
Definition render (name relativePath documentText : jsstring) : jsstring :=
  lit "File name: " ++ name ++ [10] ++
  lit "File path: " ++ relativePath ++ [10] ++
  lit "File code:" ++ [10; 10] ++
  lit "```dart" ++ [10] ++ documentText ++ lit "```" ++ [10; 10] ++
  lit "------" ++ [10; 10].

(** The filter of the diffing step. *)
Definition needs_update (cache : Cache) (fileContent : FileContent.t) : bool :=
  match cache !! FileContent.path fileContent with
  | None => true
  | Some cachedEntry =>
    negb (bool_decide (codehash cachedEntry = FileContent.codehash fileContent))
  end.

Definition filesToUpdate (cache : Cache) (fileContents : list FileContent.t) :
    list FileContent.t :=
  List.filter (needs_update cache) fileContents.

(** [for (let i = 0; i < l.length; i += batchSize) batches.push(l.slice(i, i + batchSize))];
    a slice removes at least one element, so [length l] rounds are enough. *)
Fixpoint slices {A} (rounds : nat) (batchSize : nat) (l : list A) : list (list A) :=
  match rounds with
  | O => []
  | S r =>
    match l with
    | [] => []
    | _ :: _ => take batchSize l :: slices r batchSize (drop batchSize l)
    end
  end.

Definition make_batches {A} (l : list A) : list (list A) := slices (length l) 100 l.

(** [Array.prototype.sort] is stable, and moves [a] behind [b] when the
    comparator is positive on them; a comparator value of [NaN] counts as
    zero.  For a consistent comparator the result is determined; outside
    that the language leaves the order to the implementation, and the model
    is the insertion sort. *)
Definition is_positive (v : number) : bool :=
  match v with
  | Num r => if Rlt_dec 0 r then true else false
  | NaN => false
  end.

Fixpoint sort_insert {A} (cmp : A -> A -> number) (x : A) (l : list A) : list A :=
  match l with
  | [] => [x]
  | y :: l' => if is_positive (cmp x y) then y :: sort_insert cmp x l' else x :: l
  end.

Definition array_sort {A} (cmp : A -> A -> number) (l : list A) : list A :=
  foldr (sort_insert cmp) [] l.

Definition comparator (a b : Distance) : number := js_sub (distance a) (distance b).

(** [distances.sort(...)] followed by [slice(0, 5)] *)
Definition rank (distances : list Distance) : list Distance :=
  take 5 (array_sort comparator distances).

Fixpoint mapM {A B} (f : A -> M B) (l : list A) : M (list B) :=
  match l with
  | [] => ret []
  | x :: l' => (y <- f x ;; ys <- mapM f l' ;; ret (y :: ys))%js
  end.

Fixpoint forEach {A} (f : A -> nat -> M unit) (l : list A) (index : nat) : M unit :=
  match l with
  | [] => ret tt
  | x :: l' => (f x index ;; forEach f l' (S index))%js
  end.

(** [dartFiles.map(file => ({file, distance: ...}))]: the entry of every
    file is read from the cache without a test for its presence. *)
Definition computeDistances (dartFiles : list jsstring)
    (queryEmbedding : ContentEmbedding) : M (list Distance) :=
  mapM (fun file =>
          cache <- get_cache ;;
          match cache !! file with
          | None =>
            throw (ErrorObject "TypeError"
                     "Cannot read properties of undefined (reading 'embedding')")
          | Some entry =>
            ret {| file := file;
                   distance := euclideanDistance (values (embedding entry))
                                                 (values queryEmbedding) |}
          end)
       dartFiles.

(** ** The methods *)

Definition handleError {A} (error : thrown) (userFriendlyMessage : string) : M A :=
  emit (ConsoleError EmptyString error) ;;
  throw (new_Error userFriendlyMessage).

Section Methods.

Variable env : Env.

Definition cacheFilePath : M jsstring :=
  match workspaceFolder env with
  | None => throw (new_Error "No workspace folders found.")
  | Some projectFolder =>
    let hash := computeCodehash projectFolder in
    ret (path_join env [tmpdir env; lit "flutterGPT"; hash ++ lit ".codehashCache.json"])
  end.

Definition saveCache : M unit :=
  try_catch
    (cache <- get_cache ;;
     let cacheData := JSON_stringify env cache in
     cachePath <- cacheFilePath ;;
     emit (WriteFile cachePath cacheData) ;;
     lift (writeFile env cachePath cacheData))
    (fun error =>
       if instanceof_Error error
       then handleError error "Failed to save the cache data."
       else emit (ConsoleError "An unexpected error type was thrown:" error)).

Definition loadCache : M unit :=
  try_catch
    (p <- cacheFilePath ;;
     emit (ExistsSync p) ;;
     if existsSync env p then
       p' <- cacheFilePath ;;
       emit (ReadFile p') ;;
       cacheData <- lift (readFile env p') ;;
       parsed <- lift (JSON_parse env cacheData) ;;
       put_cache parsed
     else ret tt)
    (fun error => emit (ConsoleError "Error loading cache: " error)).

(** What the callback of [dartFiles.map] returns for a file, once its
    document is open. *)
Definition fileContent_of (file documentText : jsstring) : FileContent.t :=
  let relativePath := asRelativePath env file in
  let text := render (basename file) relativePath documentText in
  let codehash := computeCodehash text in
  FileContent.mk text file codehash.

(** [Promise.all(dartFiles.map(async ...))]: every document is requested
    before any of them is awaited.  Which rejection wins when several
    documents fail is a matter of timing; the model takes the first in the
    order of the enumeration. *)
Definition readFileContents (dartFiles : list jsstring) : M (list FileContent.t) :=
  forEach (fun file _ => emit (OpenTextDocument file)) dartFiles 0 ;;
  mapM (fun file =>
          documentText <- lift (openTextDocument env file) ;;
          ret (fileContent_of file documentText))
       dartFiles.

(** The body of the loop over the batches, with its own [try]. *)
Definition processBatch (i : nat) (batch : list FileContent.t) : M unit :=
  try_catch
    (let texts := map FileContent.text batch in
     emit (BatchEmbedContents texts) ;;
     batchEmbeddings <- lift (batchEmbedContents env i texts) ;;
     forEach
       (fun embedding index =>
          match batch !! index with
          | None =>
            throw (ErrorObject "TypeError"
                     "Cannot read properties of undefined (reading 'path')")
          | Some fileContent =>
            cache <- get_cache ;;
            put_cache
              (<[FileContent.path fileContent :=
                   {| codehash := FileContent.codehash fileContent;
                      embedding := embedding |}]> cache)
          end)
       batchEmbeddings 0)
    (fun error => emit (ConsoleError "Error embedding documents:" error)).

Definition processBatches (batches : list (list FileContent.t)) : M unit :=
  forEach (fun batch i => processBatch i batch) batches 0.

Definition text_of (fileContents : list FileContent.t) (fileEmbedding : Distance) : jsstring :=
  match List.find (fun fc => bool_decide (FileContent.path fc = file fileEmbedding))
                  fileContents with
  | Some fc => FileContent.text fc
  | None => lit "undefined"
  end.

(** The end of the method: the cache is saved, the query embedded, the
    files ranked and the closest reported. *)
Definition persistAndRank (query : jsstring) (dartFiles : list jsstring)
    (fileContents : list FileContent.t) : M jsstring :=
  saveCache ;;
  emit (EmbedContent query) ;;
  queryEmbedding <- lift (embedContent env query) ;;
  distances <- computeDistances dartFiles queryEmbedding ;;
  let closest := rank distances in
  let resultString := flat_map (text_of fileContents) closest in
  let filePaths := map (fun fileEmbedding => basename (file fileEmbedding)) closest in
  emit (PostMessage filePaths) ;;
  emit (ConsoleLog "Most relevant file paths:" filePaths) ;;
  ret (trim resultString).

(** The method from the enumeration of the files on, that is after the
    credential test and the loading of the cache. *)
Definition refreshAndRank (query : jsstring) : M jsstring :=
  emit FindFiles ;;
  dartFiles <- lift (findFiles env) ;;
  fileContents <- readFileContents dartFiles ;;
  cache <- get_cache ;;
  let batches := make_batches (filesToUpdate cache fileContents) in
  processBatches batches ;;
  persistAndRank query dartFiles fileContents.

Definition rethrow (error : thrown) : M jsstring :=
  emit (ConsoleError "Error finding closest Dart files: " error) ;;
  throw error.

Definition findClosestDartFiles (query : jsstring) : M jsstring :=
  try_catch
    (fun this =>
       (if falsy (apiKey this) then
          throw (new_Error "API token not set, please go to extension settings to set it (read README.md for more info)")
        else
          (if Nat.eqb (size (codehashCache this)) 0 then loadCache else ret tt) ;;
          refreshAndRank query) this)
    rethrow.

End Methods.

(** * The vocabulary of the properties *)

Local Open Scope R_scope.

(** ** Texts that differ in whitespace *)

(** Two texts that differ only in whitespace: one is obtained from the
    other by inserting and deleting code units of the class [\s]. *)
Inductive ws_variant : jsstring -> jsstring -> Prop :=
| wv_nil : ws_variant [] []
| wv_keep c s t : ws_variant s t -> ws_variant (c :: s) (c :: t)
| wv_delete c s t : is_whitespace c = true -> ws_variant s t -> ws_variant (c :: s) t
| wv_insert c s t : is_whitespace c = true -> ws_variant s t -> ws_variant s (c :: t).

(** ** Distances *)

(** The sum of the squared differences of the components, and the
    Euclidean distance, on real vectors; [zip_with] stops at the shorter. *)
Definition sq_diff_sum (a b : list R) : R :=
  fold_right Rplus 0 (zip_with (fun x y => (x - y) ^ 2) a b).

Definition l2 (a b : list R) : R := sqrt (sq_diff_sum a b).

(** The loop of [euclideanDistance] by recursion on [a]. *)
Fixpoint sum_loop (a b : list number) (sum : number) : number :=
  match a with
  | [] => sum
  | x :: a' =>
    sum_loop a' (tail b)
             (js_add sum (Math_pow (js_sub x (to_number (head b))) 2))
  end.

(** ** The distances of the candidates *)

Definition vector_of (cache : Cache) (f : jsstring) : list number :=
  match cache !! f with
  | Some entry => values (embedding entry)
  | None => []
  end.

Definition distance_of (cache : Cache) (queryEmbedding : ContentEmbedding)
    (f : jsstring) : Distance :=
  {| file := f;
     distance := euclideanDistance (vector_of cache f) (values queryEmbedding) |}.

(** ** Sorting *)

(** The order of the ranking on records whose distances are real. *)
Definition dist_le (a b : Distance) : Prop :=
  match distance a, distance b with
  | Num x, Num y => x <= y
  | _, _ => False
  end.

Definition has_real_distance (d : Distance) : Prop := exists x, distance d = Num x.

(** ** Ranking *)

(** Every candidate has an entry whose vector is real and has the dimension
    of the query. *)
Definition valid_candidates (cache : Cache) (q : list R) (files : list jsstring) : Prop :=
  Forall (fun f => exists entry v,
              cache !! f = Some entry /\
              values (embedding entry) = map Num v /\
              length v = length q)
         files.

(** ** The stages of a call as functions of the environment *)

(** What each stage of [findClosestDartFiles] returns, writes into the
    cache and records in the trace, as plain functions; the equations of
    the second part show that the methods compute them. *)

Definition api_token_error : thrown :=
  new_Error "API token not set, please go to extension settings to set it (read README.md for more info)".

Definition save_error : thrown := new_Error "Failed to save the cache data.".

(** The path of the cache file, when there is a workspace folder. *)
Definition cache_path (env : Env) : option jsstring :=
  match workspaceFolder env with
  | None => None
  | Some projectFolder =>
    Some (path_join env [tmpdir env; lit "flutterGPT";
                         computeCodehash projectFolder ++ lit ".codehashCache.json"])
  end.

(** What [loadCache] reads, when every step of it succeeds. *)
Definition loaded_cache (env : Env) : option Cache :=
  match cache_path env with
  | None => None
  | Some p =>
    if existsSync env p then
      match readFile env p with
      | inl _ => None
      | inr cacheData =>
        match JSON_parse env cacheData with
        | inl _ => None
        | inr parsed => Some parsed
        end
      end
    else None
  end.

(** The records of [Promise.all(dartFiles.map(...))]. *)
Fixpoint fileContents_of (env : Env) (files : list jsstring) : thrown + list FileContent.t :=
  match files with
  | [] => inr []
  | file :: files' =>
    match openTextDocument env file with
    | inl e => inl e
    | inr documentText =>
      match fileContents_of env files' with
      | inl e => inl e
      | inr l => inr (fileContent_of env file documentText :: l)
      end
    end
  end.

(** The writes of one answer of the remote model into the cache. *)
Fixpoint store_embeddings (batch : list FileContent.t) (embeddings : list ContentEmbedding)
    (index : nat) (cache : Cache) : Cache * option thrown :=
  match embeddings with
  | [] => (cache, None)
  | embedding :: embeddings' =>
    match batch !! index with
    | None =>
      (cache, Some (ErrorObject "TypeError"
                      "Cannot read properties of undefined (reading 'path')"))
    | Some fileContent =>
      store_embeddings batch embeddings' (S index)
        (<[FileContent.path fileContent :=
             {| codehash := FileContent.codehash fileContent;
                embedding := embedding |}]> cache)
    end
  end.

Definition batch_failure (error : thrown) : event :=
  ConsoleError "Error embedding documents:" error.

(** One round of the loop over the batches, and the whole loop. *)
Definition refresh_batch (env : Env) (i : nat) (batch : list FileContent.t)
    (cache : Cache) : Cache * list event :=
  let texts := map FileContent.text batch in
  match batchEmbedContents env i texts with
  | inl error => (cache, [BatchEmbedContents texts; batch_failure error])
  | inr embeddings =>
    match store_embeddings batch embeddings 0 cache with
    | (cache', None) => (cache', [BatchEmbedContents texts])
    | (cache', Some error) => (cache', [BatchEmbedContents texts; batch_failure error])
    end
  end.

Fixpoint refresh_batches (env : Env) (batches : list (list FileContent.t)) (i : nat)
    (cache : Cache) : Cache * list event :=
  match batches with
  | [] => (cache, [])
  | batch :: batches' =>
    let '(cache', t) := refresh_batch env i batch cache in
    let '(cache'', t') := refresh_batches env batches' (S i) cache' in
    (cache'', t ++ t')
  end.

(** What [saveCache] returns and records. *)
Definition save_outcome (env : Env) (cache : Cache) : (thrown + unit) * list event :=
  match cache_path env with
  | None => (inl save_error, [ConsoleError EmptyString (new_Error "No workspace folders found.")])
  | Some p =>
    let cacheData := JSON_stringify env cache in
    match writeFile env p cacheData with
    | inr u => (inr u, [WriteFile p cacheData])
    | inl error =>
      if instanceof_Error error
      then (inl save_error, [WriteFile p cacheData; ConsoleError EmptyString error])
      else (inr tt, [WriteFile p cacheData;
                     ConsoleError "An unexpected error type was thrown:" error])
    end
  end.

(** The cache with which the refresh starts: the one in memory, or, when
    that one is empty, what [loadCache] makes of it. *)
Definition state_after_load (env : Env) (this : Repo) : Repo :=
  if Nat.eqb (size (codehashCache this)) 0 then
    match loaded_cache env with
    | Some parsed => set_cache parsed this
    | None => this
    end
  else this.


(** ** Sample workspaces *)

Definition join_with_slash (parts : list jsstring) : jsstring :=
  match parts with
  | [] => lit "."
  | p :: ps => p ++ flat_map (fun q => 47%Z :: q) ps
  end.

(** One Dart file, no cache file, a file system and a remote model that
    answer every request. *)
Definition sample_env : Env := {|
  workspaceFolder := Some (lit "/w");
  tmpdir := lit "/tmp";
  path_join := join_with_slash;
  existsSync := fun _ => false;
  readFile := fun _ => inl (ErrorObject "Error" "ENOENT: no such file or directory");
  writeFile := fun _ _ => inr tt;
  JSON_stringify := fun _ => lit "{}";
  JSON_parse := fun _ => inl (ErrorObject "SyntaxError" "Unexpected end of JSON input");
  findFiles := inr [lit "/w/lib/main.dart"];
  openTextDocument := fun _ => inr (lit "void main() {}");
  asRelativePath := drop 3;
  batchEmbedContents :=
    fun _ texts => inr (map (fun _ => {| values := [Num 1; Num 0] |}) texts);
  embedContent := fun _ => inr {| values := [Num 0; Num 1] |}
|}.

Definition with_batchEmbedContents
    (f : nat -> list jsstring -> thrown + list ContentEmbedding) (env : Env) : Env := {|
  workspaceFolder := workspaceFolder env;
  tmpdir := tmpdir env;
  path_join := path_join env;
  existsSync := existsSync env;
  readFile := readFile env;
  writeFile := writeFile env;
  JSON_stringify := JSON_stringify env;
  JSON_parse := JSON_parse env;
  findFiles := findFiles env;
  openTextDocument := openTextDocument env;
  asRelativePath := asRelativePath env;
  batchEmbedContents := f;
  embedContent := embedContent env
|}.


(** A cache file that is there and does not parse. *)
Definition with_corrupt_cache_file (env : Env) : Env := {|
  workspaceFolder := workspaceFolder env;
  tmpdir := tmpdir env;
  path_join := path_join env;
  existsSync := fun _ => true;
  readFile := fun _ => inr (lit "{ /w/lib/ma");
  writeFile := writeFile env;
  JSON_stringify := JSON_stringify env;
  JSON_parse := JSON_parse env;
  findFiles := findFiles env;
  openTextDocument := openTextDocument env;
  asRelativePath := asRelativePath env;
  batchEmbedContents := batchEmbedContents env;
  embedContent := embedContent env
|}.

Definition remote_down : nat -> list jsstring -> thrown + list ContentEmbedding :=
  fun _ _ => inl (new_Error "fetch failed").


Definition fresh_repo : Repo := {| apiKey := Some (lit "key"); codehashCache := ∅ |}.

(** An object whose cache holds the vector of an earlier content of the file. *)
Definition stale_repo : Repo := {|
  apiKey := Some (lit "key");
  codehashCache :=
    {[ lit "/w/lib/main.dart" :=
         {| codehash := computeCodehash (lit "an earlier content");
            embedding := {| values := [Num 0; Num 1] |} |} ]}
|}.

(** ** The refresh of the cache *)

Definition is_batch_failure (e : event) : bool :=
  match e with
  | ConsoleError label _ => String.eqb label "Error embedding documents:"
  | _ => false
  end.

(** The remote model answers a batch with one embedding for each text. *)
Definition aligned_lengths (env : Env) : Prop :=
  forall i texts embeddings,
    batchEmbedContents env i texts = inr embeddings ->
    length embeddings = length texts.

(** The files and their contents are the same in two environments. *)
Definition same_files (env1 env2 : Env) : Prop :=
  findFiles env2 = findFiles env1 /\
  (forall f, openTextDocument env2 f = openTextDocument env1 f) /\
  (forall f, asRelativePath env2 f = asRelativePath env1 f).

(** The entry of the file in the cache carries its current fingerprint. *)
Definition fresh (cache : Cache) (fc : FileContent.t) : Prop :=
  needs_update cache fc = false.

(** Records with the same path carry the same fingerprint. *)
Definition consistent (l : list FileContent.t) : Prop :=
  forall a b, In a l -> In b l ->
    FileContent.path a = FileContent.path b ->
    FileContent.codehash a = FileContent.codehash b.

(** ** The entries written by a call *)

(** The entry carries the fingerprint of the record, and its vector is an
    embedding of the text of the record. *)
Definition paired (embeds : jsstring -> ContentEmbedding -> Prop)
    (fc : FileContent.t) (entry : CacheEntry) : Prop :=
  codehash entry = FileContent.codehash fc /\
  embeds (FileContent.text fc) (embedding entry).

(** The remote model answers a batch with the embeddings of its texts, in
    the order of the texts. *)
Definition aligned (embeds : jsstring -> ContentEmbedding -> Prop) (env : Env) : Prop :=
  forall i texts embeddings,
    batchEmbedContents env i texts = inr embeddings ->
    Forall2 embeds texts embeddings.

(** ** Sample objects *)

Definition no_key_repo : Repo := {| apiKey := None; codehashCache := ∅ |}.

(** A cache with the vectors of two files. *)
Definition two_file_repo : Repo := {|
  apiKey := Some (lit "key");
  codehashCache :=
    <[lit "/w/a.dart" := {| codehash := lit "a"; embedding := {| values := [Num 0; Num 1] |} |}]>
      (<[lit "/w/b.dart" := {| codehash := lit "b"; embedding := {| values := [Num 1; Num 0] |} |}]> ∅)
|}.

(** * Further vocabulary *)

(** ** Requests and reads in a trace *)

(** The batches of texts sent to the remote model, in the order of the
    requests. *)
Definition batch_requests (t : list event) : list (list jsstring) :=
  flat_map (fun e => match e with
                     | BatchEmbedContents texts => [texts]
                     | _ => []
                     end) t.


(** The text rendered for a file of the workspace. *)
Definition rendered (env : Env) (f : jsstring) : jsstring :=
  match openTextDocument env f with
  | inr documentText => FileContent.text (fileContent_of env f documentText)
  | inl _ => lit "undefined"
  end.

(** The records of a list that have a given distance. *)
Definition same_distance (v : number) (d : Distance) : bool :=
  match distance d, v with
  | Num a, Num b => if Req_dec_T a b then true else false
  | NaN, NaN => true
  | _, _ => false
  end.

(** The documents of two environments differ in whitespace only. *)
Definition documents_differ_in_whitespace (env1 env2 : Env) : Prop :=
  forall f,
    match openTextDocument env1 f, openTextDocument env2 f with
    | inr d1, inr d2 => ws_variant d1 d2
    | inl e1, inl e2 => e1 = e2
    | _, _ => False
    end.

Definition with_workspaceFolder (w : option jsstring) (env : Env) : Env := {|
  workspaceFolder := w;
  tmpdir := tmpdir env;
  path_join := path_join env;
  existsSync := existsSync env;
  readFile := readFile env;
  writeFile := writeFile env;
  JSON_stringify := JSON_stringify env;
  JSON_parse := JSON_parse env;
  findFiles := findFiles env;
  openTextDocument := openTextDocument env;
  asRelativePath := asRelativePath env;
  batchEmbedContents := batchEmbedContents env;
  embedContent := embedContent env
|}.

Definition with_files (files : thrown + list jsstring)
    (documents : jsstring -> thrown + jsstring) (env : Env) : Env := {|
  workspaceFolder := workspaceFolder env;
  tmpdir := tmpdir env;
  path_join := path_join env;
  existsSync := existsSync env;
  readFile := readFile env;
  writeFile := writeFile env;
  JSON_stringify := JSON_stringify env;
  JSON_parse := JSON_parse env;
  findFiles := files;
  openTextDocument := documents;
  asRelativePath := asRelativePath env;
  batchEmbedContents := batchEmbedContents env;
  embedContent := embedContent env
|}.

(** ** The trace of a call *)

(** The events of the loading of the cache in a call: those of [loadCache]
    when the cache in memory is empty, none otherwise. *)
Definition load_trace (env : Env) (this : Repo) : list event :=
  if Nat.eqb (size (codehashCache this)) 0 then trace_of (loadCache env this) else [].

(** The report of the error with which a call ends. *)
Definition rethrow_trace {A} (r : thrown + A) : list event :=
  match r with
  | inl e => [ConsoleError "Error finding closest Dart files: " e]
  | inr _ => []
  end.

(** The events of a call that ranks [closest] first: the query is embedded,
    the names are posted and logged. *)
Definition ranking_trace (query : jsstring) (closest : list Distance) : list event :=
  let filePaths := map (fun fileEmbedding => basename (file fileEmbedding)) closest in
  [EmbedContent query; PostMessage filePaths;
   ConsoleLog "Most relevant file paths:" filePaths].

(** A cache file that holds the given cache. *)
Definition with_cache_file (c : Cache) (env : Env) : Env := {|
  workspaceFolder := workspaceFolder env;
  tmpdir := tmpdir env;
  path_join := path_join env;
  existsSync := fun _ => true;
  readFile := fun _ => inr (lit "{ }");
  writeFile := writeFile env;
  JSON_stringify := JSON_stringify env;
  JSON_parse := fun _ => inr c;
  findFiles := findFiles env;
  openTextDocument := openTextDocument env;
  asRelativePath := asRelativePath env;
  batchEmbedContents := batchEmbedContents env;
  embedContent := embedContent env
|}.

(** The cache that the sample workspace has after a call. *)
Definition sample_cache : Cache :=
  {[ lit "/w/lib/main.dart" :=
       {| codehash :=
            FileContent.codehash
              (fileContent_of sample_env (lit "/w/lib/main.dart") (lit "void main() {}"));
          embedding := {| values := [Num 1; Num 0] |} |} ]}.

(** Two records have the same path and the same fingerprint. *)
Definition same_key (a b : FileContent.t) : Prop :=
  FileContent.path a = FileContent.path b /\
  FileContent.codehash a = FileContent.codehash b.

(** The error of [batch[index].path] past the end of the batch. *)
Definition batch_index_error : thrown :=
  ErrorObject "TypeError" "Cannot read properties of undefined (reading 'path')".


(** A remote model that answers with a fixed list of embeddings. *)
Definition answers (embeddings : list ContentEmbedding) :
    nat -> list jsstring -> thrown + list ContentEmbedding :=
  fun _ _ => inr embeddings.

(** * The chat completion *)

(** [getCompletion]: the last message of the prompt is taken off the array,
    its tokens are counted, and it is sent to a chat whose history is the
    rest of the array.  The array is the caller's: the model returns it as
    the method leaves it.  The remote model is a pair of functions. *)

Module Completion.

Record Content := {
  role : jsstring;
  parts : jsstring
}.

Record ChatEnv := {
  countTokens : jsstring -> thrown + number;
  sendMessage : list Content -> jsstring -> thrown + jsstring
}.

Inductive event :=
| CountTokens (text : jsstring)
| ConsoleLog (totalTokens : number)
| SendMessage (history : list Content) (text : jsstring).

Definition is_request (e : event) : bool :=
  match e with
  | ConsoleLog _ => false
  | _ => true
  end.

(** [prompt.pop()]: the last element, [undefined] on an empty array, and the
    array without it. *)
Definition pop {A} (l : list A) : option A * list A := (last l, removelast l).

(** [lastMessage?.parts ?? ""] *)
Definition parts_or_empty (lastMessage : option Content) : jsstring :=
  match lastMessage with
  | Some m => parts m
  | None => []
  end.

(** [x > limit] on numbers; a comparison with [NaN] is false. *)
Definition greater (x : number) (limit : R) : bool :=
  match x with
  | Num r => if Rlt_dec limit r then true else false
  | NaN => false
  end.

Definition token_limit_error : thrown :=
  new_Error "Input prompt exceeds the maximum token limit.".

Definition getCompletion (cenv : ChatEnv) (this : Repo) (prompt : list Content) :
    (thrown + jsstring) * list Content * list event :=
  if falsy (apiKey this) then
    (inl (new_Error "API token not set, please go to extension settings to set it (read README.md for more info)"),
     prompt, [])
  else
    let '(lastMessage, prompt) := pop prompt in
    let text := parts_or_empty lastMessage in
    match countTokens cenv text with
    | inl e => (inl e, prompt, [CountTokens text])
    | inr totalTokens =>
      if greater totalTokens 30720 then
        (inl token_limit_error, prompt, [CountTokens text; ConsoleLog totalTokens])
      else
        match sendMessage cenv prompt text with
        | inl e =>
          (inl e, prompt,
           [CountTokens text; ConsoleLog totalTokens; SendMessage prompt text])
        | inr answer =>
          (inr answer, prompt,
           [CountTokens text; ConsoleLog totalTokens; SendMessage prompt text])
        end
    end.

(** A remote model that counts one token for each code unit and answers
    with the text it was sent. *)
Definition echo : ChatEnv := {|
  countTokens := fun text => inr (Num (INR (length text)));
  sendMessage := fun _ text => inr text
|}.

Definition user (text : jsstring) : Content := {| role := lit "user"; parts := text |}.

End Completion.

(** * The progress of [customizeCode] *)

(** The callback of [setInterval] in [customizeCode]: the percentage
    advances by 10 modulo 100 and the difference to the previous percentage
    is reported.  The counters are small integers. *)

Module Progress.

Record counters := {
  progressPercentage : Z;
  prevProgressPercentage : Z
}.

Definition start : counters := {| progressPercentage := 0; prevProgressPercentage := 0 |}.

(** One run of the callback: the counters after it and the increment
    reported. *)
Definition tick (s : counters) : counters * Z :=
  let prev := progressPercentage s in
  let p := Z.rem (progressPercentage s + 10) 100 in
  ({| progressPercentage := p; prevProgressPercentage := prev |}, (p - prev)%Z).

(** [n] runs of the callback: the counters and the increments reported. *)
Fixpoint ticks (n : nat) (s : counters) : counters * list Z :=
  match n with
  | O => (s, [])
  | S n' =>
    let '(s', increment) := tick s in
    let '(s'', increments) := ticks n' s' in
    (s'', increment :: increments)
  end.

(** The increments that [customizeCode] reports when the completion
    arrives after [n] runs of the callback: those of the callback, then
    100. *)
Definition reported (n : nat) : list Z := (ticks n start).2 ++ [100%Z].

Definition sum (l : list Z) : Z := fold_right Z.add 0%Z l.

End Progress.

(** * The chat toggle *)

(** The callback that [registerCommand] registers runs the handler only when
    the check of the API key succeeds, after logging the command; the
    handler of [fluttergpt.toggleChat] opens the view or closes the sidebar
    according to the flag [isChatOpen] of the module and flips the flag. *)

Module Commands.

Inductive event :=
| LogEvent (name : string)
| ExecuteCommand (command : string).

(** The callback of [registerCommand] for a handler on a state. *)
Definition callback {S} (name : string) (handler : S -> S * list event)
    (apiKeyValid : bool) (s : S) : S * list event :=
  if apiKeyValid then
    let '(s', t) := handler s in (s', LogEvent name :: t)
  else (s, []).

Definition toggleChat (isChatOpen : bool) : bool * list event :=
  (negb isChatOpen,
   [ExecuteCommand (if isChatOpen then "workbench.action.closeSidebar"%string
                    else "workbench.view.extension.webview"%string)]).

(** The command invoked once for each element of a list of outcomes of the
    check of the API key. *)
Fixpoint invocations (checks : list bool) (isChatOpen : bool) : bool * list event :=
  match checks with
  | [] => (isChatOpen, [])
  | apiKeyValid :: checks' =>
    let '(s, t) := callback "fluttergpt.toggleChat" toggleChat apiKeyValid isChatOpen in
    let '(s', t') := invocations checks' s in
    (s', t ++ t')
  end.

Definition executed (t : list event) : list string :=
  flat_map (fun e => match e with
                     | ExecuteCommand c => [c]
                     | LogEvent _ => []
                     end) t.

(** [n] commands that open and close in turn. *)
Fixpoint alternating (isChatOpen : bool) (n : nat) : list string :=
  match n with
  | O => []
  | S n' =>
    (if isChatOpen then "workbench.action.closeSidebar"%string
     else "workbench.view.extension.webview"%string)
    :: alternating (negb isChatOpen) n'
  end.

End Commands.

(** The events on the cache file. *)
Definition is_cache_file_io (e : event) : bool :=
  match e with
  | ExistsSync _ | ReadFile _ | WriteFile _ _ => true
  | _ => false
  end.


(** * The cache as [JSON.parse] returns it *)

(** [loadCache] assigns to [this.codehashCache] what [JSON.parse] returns
    for the text of the cache file, and nothing tests that the value has
    the shape that the declared type of the field promises.  The methods
    above follow the declared type.  This part follows the values: the
    field holds a cache or [null], the value of the JSON text [null], on
    which [Object.keys], the reading of a property and the assignment to a
    property throw a [TypeError].  On every other text [JSON.parse] is the
    function of the environment. *)

Module Untyped.

Inductive value :=
| CacheObject (cache : Cache)
| Null.

Record Repo := {
  apiKey : option jsstring;
  codehashCache : value
}.

Definition set_cache (v : value) (this : Repo) : Repo :=
  {| apiKey := apiKey this; codehashCache := v |}.

(** ** Computations on the object *)

Definition M (A : Type) : Type := Repo -> (thrown + A) * Repo * list event.

Definition ret {A} (a : A) : M A := fun this => (inr a, this, []).

Definition throw {A} (e : thrown) : M A := fun this => (inl e, this, []).

Definition bind {A B} (m : M A) (f : A -> M B) : M B :=
  fun this =>
    match m this with
    | (inl e, this', t) => (inl e, this', t)
    | (inr a, this', t) =>
      let '(r, this'', t') := f a this' in (r, this'', t ++ t')
    end.

Definition try_catch {A} (m : M A) (handler : thrown -> M A) : M A :=
  fun this =>
    match m this with
    | (inl e, this', t) =>
      let '(r, this'', t') := handler e this' in (r, this'', t ++ t')
    | ok => ok
    end.

Definition emit (e : event) : M unit := fun this => (inr tt, this, [e]).

Definition get_cache : M value := fun this => (inr (codehashCache this), this, []).

Definition put_cache (v : value) : M unit := fun this => (inr tt, set_cache v this, []).

Definition lift {A} (r : thrown + A) : M A :=
  match r with
  | inl e => throw e
  | inr a => ret a
  end.

Declare Scope untyped_scope.
Delimit Scope untyped_scope with untyped.
Notation "x <- m ;; k" := (bind m (fun x => k))
  (at level 100, m at next level, right associativity) : untyped_scope.
Notation "m ;; k" := (bind m (fun _ => k))
  (at level 100, right associativity) : untyped_scope.
Local Open Scope untyped_scope.

Definition result_of {A} (o : (thrown + A) * Repo * list event) : thrown + A := o.1.1.
Definition state_of {A} (o : (thrown + A) * Repo * list event) : Repo := o.1.2.
Definition trace_of {A} (o : (thrown + A) * Repo * list event) : list event := o.2.

Fixpoint mapM {A B} (f : A -> M B) (l : list A) : M (list B) :=
  match l with
  | [] => ret []
  | x :: l' => y <- f x ;; ys <- mapM f l' ;; ret (y :: ys)
  end.

Fixpoint forEach {A} (f : A -> nat -> M unit) (l : list A) (index : nat) : M unit :=
  match l with
  | [] => ret tt
  | x :: l' => f x index ;; forEach f l' (S index)
  end.

(** [l.filter(f)] with a callback that can throw. *)
Fixpoint filterM {A} (f : A -> M bool) (l : list A) : M (list A) :=
  match l with
  | [] => ret []
  | x :: l' =>
    keep <- f x ;;
    kept <- filterM f l' ;;
    ret (if keep then x :: kept else kept)
  end.

(** ** The uses of the field *)

(** A string as the message of an error shows it. *)
Definition show (s : jsstring) : string :=
  string_of_list_ascii (map (fun byte => ascii_of_N (Z.to_N byte)) (utf8_encode s)).

Definition keys_of_null : thrown :=
  ErrorObject "TypeError" "Cannot convert undefined or null to object".

Definition reading_null (key : jsstring) : thrown :=
  ErrorObject "TypeError"
    (String.append "Cannot read properties of null (reading '"
       (String.append (show key) "')")).

Definition setting_null (key : jsstring) : thrown :=
  ErrorObject "TypeError"
    (String.append "Cannot set properties of null (setting '"
       (String.append (show key) "')")).

(** [Object.keys(this.codehashCache).length] *)
Definition keys_length : M nat :=
  v <- get_cache ;;
  match v with
  | CacheObject cache => ret (size cache)
  | Null => throw keys_of_null
  end.

(** [this.codehashCache[key]] *)
Definition get_entry (key : jsstring) : M (option CacheEntry) :=
  v <- get_cache ;;
  match v with
  | CacheObject cache => ret (cache !! key)
  | Null => throw (reading_null key)
  end.

(** [this.codehashCache[key] = entry] *)
Definition set_entry (key : jsstring) (entry : CacheEntry) : M unit :=
  v <- get_cache ;;
  match v with
  | CacheObject cache => put_cache (CacheObject (<[key := entry]> cache))
  | Null => throw (setting_null key)
  end.

(** ** JSON *)

(** The whitespace that JSON allows around a value. *)
Definition is_json_whitespace (c : Z) : bool :=
  ((c =? 9) || (c =? 10) || (c =? 13) || (c =? 32))%Z.

Fixpoint skip_whitespace (s : jsstring) : jsstring :=
  match s with
  | [] => []
  | c :: s' => if is_json_whitespace c then skip_whitespace s' else s
  end.

Definition json_trim (s : jsstring) : jsstring :=
  rev (skip_whitespace (rev (skip_whitespace s))).

(** [JSON.parse(text)]: [null] for the text [null]. *)
Definition parse (env : Env) (text : jsstring) : thrown + value :=
  if bool_decide (json_trim text = lit "null") then inr Null
  else
    match JSON_parse env text with
    | inl e => inl e
    | inr cache => inr (CacheObject cache)
    end.

(** [JSON.stringify(v)] *)
Definition stringify (env : Env) (v : value) : jsstring :=
  match v with
  | CacheObject cache => JSON_stringify env cache
  | Null => lit "null"
  end.

(** ** The methods *)

Definition handleError {A} (error : thrown) (userFriendlyMessage : string) : M A :=
  emit (ConsoleError EmptyString error) ;;
  throw (new_Error userFriendlyMessage).

Section Methods.

Variable env : Env.

Definition cacheFilePath : M jsstring :=
  match workspaceFolder env with
  | None => throw (new_Error "No workspace folders found.")
  | Some projectFolder =>
    let hash := computeCodehash projectFolder in
    ret (path_join env [tmpdir env; lit "flutterGPT"; hash ++ lit ".codehashCache.json"])
  end.

Definition saveCache : M unit :=
  try_catch
    (v <- get_cache ;;
     let cacheData := stringify env v in
     cachePath <- cacheFilePath ;;
     emit (WriteFile cachePath cacheData) ;;
     lift (writeFile env cachePath cacheData))
    (fun error =>
       if instanceof_Error error
       then handleError error "Failed to save the cache data."
       else emit (ConsoleError "An unexpected error type was thrown:" error)).

Definition loadCache : M unit :=
  try_catch
    (p <- cacheFilePath ;;
     emit (ExistsSync p) ;;
     if existsSync env p then
       p' <- cacheFilePath ;;
       emit (ReadFile p') ;;
       cacheData <- lift (readFile env p') ;;
       parsed <- lift (parse env cacheData) ;;
       put_cache parsed
     else ret tt)
    (fun error => emit (ConsoleError "Error loading cache: " error)).

Definition readFileContents (dartFiles : list jsstring) : M (list FileContent.t) :=
  forEach (fun file _ => emit (OpenTextDocument file)) dartFiles 0 ;;
  mapM (fun file =>
          documentText <- lift (openTextDocument env file) ;;
          ret (fileContent_of env file documentText))
       dartFiles.

(** The callback of [fileContents.filter]. *)
Definition needs_update (fileContent : FileContent.t) : M bool :=
  cachedEntry <- get_entry (FileContent.path fileContent) ;;
  ret match cachedEntry with
      | None => true
      | Some cachedEntry =>
        negb (bool_decide (codehash cachedEntry = FileContent.codehash fileContent))
      end.

Definition processBatch (i : nat) (batch : list FileContent.t) : M unit :=
  try_catch
    (let texts := map FileContent.text batch in
     emit (BatchEmbedContents texts) ;;
     batchEmbeddings <- lift (batchEmbedContents env i texts) ;;
     forEach
       (fun embedding index =>
          match batch !! index with
          | None =>
            throw (ErrorObject "TypeError"
                     "Cannot read properties of undefined (reading 'path')")
          | Some fileContent =>
            set_entry (FileContent.path fileContent)
                      {| codehash := FileContent.codehash fileContent;
                         embedding := embedding |}
          end)
       batchEmbeddings 0)
    (fun error => emit (ConsoleError "Error embedding documents:" error)).

Definition processBatches (batches : list (list FileContent.t)) : M unit :=
  forEach (fun batch i => processBatch i batch) batches 0.

Definition computeDistances (dartFiles : list jsstring)
    (queryEmbedding : ContentEmbedding) : M (list Distance) :=
  mapM (fun file =>
          entry <- get_entry file ;;
          match entry with
          | None =>
            throw (ErrorObject "TypeError"
                     "Cannot read properties of undefined (reading 'embedding')")
          | Some entry =>
            ret {| file := file;
                   distance := euclideanDistance (values (embedding entry))
                                                 (values queryEmbedding) |}
          end)
       dartFiles.

Definition persistAndRank (query : jsstring) (dartFiles : list jsstring)
    (fileContents : list FileContent.t) : M jsstring :=
  saveCache ;;
  emit (EmbedContent query) ;;
  queryEmbedding <- lift (embedContent env query) ;;
  distances <- computeDistances dartFiles queryEmbedding ;;
  let closest := rank distances in
  let resultString := flat_map (text_of fileContents) closest in
  let filePaths := map (fun fileEmbedding => basename (file fileEmbedding)) closest in
  emit (PostMessage filePaths) ;;
  emit (ConsoleLog "Most relevant file paths:" filePaths) ;;
  ret (trim resultString).

Definition refreshAndRank (query : jsstring) : M jsstring :=
  emit FindFiles ;;
  dartFiles <- lift (findFiles env) ;;
  fileContents <- readFileContents dartFiles ;;
  filesToUpdate <- filterM needs_update fileContents ;;
  let batches := make_batches filesToUpdate in
  processBatches batches ;;
  persistAndRank query dartFiles fileContents.

Definition rethrow (error : thrown) : M jsstring :=
  emit (ConsoleError "Error finding closest Dart files: " error) ;;
  throw error.

Definition findClosestDartFiles (query : jsstring) : M jsstring :=
  try_catch
    (fun this =>
       (if falsy (apiKey this) then
          throw (new_Error "API token not set, please go to extension settings to set it (read README.md for more info)")
        else
          (n <- keys_length ;; if Nat.eqb n 0 then loadCache else ret tt) ;;
          refreshAndRank query) this)
    rethrow.

End Methods.


(** A new object: a credential and the empty cache. *)
Definition fresh_repo : Repo :=
  {| apiKey := Some (lit "key"); codehashCache := CacheObject ∅ |}.

End Untyped.

(** The object of the methods above as an object of this part. *)
Definition untyped (this : Repo) : Untyped.Repo :=
  {| Untyped.apiKey := apiKey this;
     Untyped.codehashCache := Untyped.CacheObject (codehashCache this) |}.

Definition untyped_outcome {A} (o : (thrown + A) * Repo * list event) :
    (thrown + A) * Untyped.Repo * list event :=
  (o.1.1, untyped o.1.2, o.2).

(** A cache file that is there and holds the given text. *)
Definition with_cache_text (text : jsstring) (env : Env) : Env := {|
  workspaceFolder := workspaceFolder env;
  tmpdir := tmpdir env;
  path_join := path_join env;
  existsSync := fun _ => true;
  readFile := fun _ => inr text;
  writeFile := writeFile env;
  JSON_stringify := JSON_stringify env;
  JSON_parse := JSON_parse env;
  findFiles := findFiles env;
  openTextDocument := openTextDocument env;
  asRelativePath := asRelativePath env;
  batchEmbedContents := batchEmbedContents env;
  embedContent := embedContent env
|}.

(** The path of the cache file of the sample workspace. *)
Definition sample_cache_path : jsstring :=
  Eval vm_compute in
    join_with_slash [lit "/tmp"; lit "flutterGPT";
                     computeCodehash (lit "/w") ++ lit ".codehashCache.json"].

(** No file holds the JSON text [null]. *)
Definition no_null_file (env : Env) : Prop :=
  forall p text, readFile env p = inr text -> Untyped.json_trim text <> lit "null".

(** A computation of this part does on the objects of the methods above
    what a computation of those methods does. *)
Definition agrees {A} (m' : Untyped.M A) (m : M A) : Prop :=
  forall this, m' (untyped this) = untyped_outcome (m this).

(** * Properties *)

(** ** The hash function *)

(** Known answers for the hash function. *)
Example sha256_empty :
  computeCodehash [] =
  lit "e3b0c44298fc1c149afbf4c8996fb92427ae41e4649b934ca495991b7852b855".
Proof. vm_compute. reflexivity. Qed.

Example sha256_abc :
  computeCodehash (lit "abc") =
  lit "ba7816bf8f01cfea414140de5dae2223b00361a396177a9cb410ff61f20015ad".
Proof. vm_compute. reflexivity. Qed.

Example sha256_two_blocks :
  computeCodehash (lit "abcdbcdecdefdefgefghfghighijhijkijkljklmklmnlmnomnopnopq") =
  lit "248d6a61d20638b8e5c026930c3e6039a33ce45964ff2167f6ecedd419db06c1".
Proof. vm_compute. reflexivity. Qed.

Example codehash_ignores_layout :
  computeCodehash (lit "a b
c") = computeCodehash (lit "abc").
Proof. vm_compute. reflexivity. Qed.

(** ** The fingerprint ignores whitespace *)

Lemma remove_whitespace_variant s t :
  ws_variant s t -> remove_whitespace s = remove_whitespace t.
Proof.
  induction 1 as [|c s t _ IH|c s t Hc _ IH|c s t Hc _ IH]; simpl.
  - reflexivity.
  - destruct (is_whitespace c); simpl; congruence.
  - rewrite Hc; simpl. exact IH.
  - rewrite Hc; simpl. exact IH.
Qed.

Lemma ws_variant_refl s : ws_variant s s.
Proof. induction s; constructor; assumption. Qed.

Lemma ws_variant_sym s t : ws_variant s t -> ws_variant t s.
Proof. induction 1; constructor; assumption. Qed.

(** Only the non-whitespace code units matter: the converse also holds on
    the normalised texts. *)
Lemma ws_variant_remove s : ws_variant s (remove_whitespace s).
Proof.
  induction s as [|c s IH]; simpl; [constructor|].
  destruct (is_whitespace c) eqn:Hc; simpl; constructor; assumption.
Qed.

(** ** Distances *)

Lemma tail_drop {T} (l : list T) (k : nat) : tail (drop k l) = drop (S k) l.
Proof.
  revert k; induction l as [|x l IH]; intros [|k]; simpl; auto.
Qed.

Lemma sum_loop_index (A B : list number) :
  forall (a : list number) (k : nat) (s : number),
    drop k A = a ->
    fold_left
      (fun sum n =>
         js_add sum (Math_pow (js_sub (to_number (A !! n)) (to_number (B !! n))) 2))
      (seq k (length a)) s
    = sum_loop a (drop k B) s.
Proof.
  induction a as [|x a IH]; intros k s Hk; simpl; [reflexivity|].
  assert (HA : A !! k = Some x).
  { rewrite <- (Nat.add_0_r k), <- lookup_drop, Hk. reflexivity. }
  assert (HB : B !! k = head (drop k B)).
  { rewrite <- (Nat.add_0_r k) at 1. rewrite <- lookup_drop.
    destruct (drop k B); reflexivity. }
  rewrite HA, HB. simpl.
  rewrite IH.
  - f_equal. symmetry. apply tail_drop.
  - rewrite <- tail_drop, Hk. reflexivity.
Qed.

Lemma euclideanDistance_sum_loop a b :
  euclideanDistance a b = Math_sqrt (sum_loop a b (Num 0)).
Proof.
  unfold euclideanDistance.
  rewrite (sum_loop_index a b a 0 (Num 0)) by apply drop_0.
  rewrite drop_0. reflexivity.
Qed.

Lemma sum_loop_NaN a b : sum_loop a b NaN = NaN.
Proof. revert b; induction a as [|x a IH]; intros b; simpl; auto. Qed.

Lemma sum_loop_cons x y a b s :
  sum_loop (Num x :: a) (Num y :: b) (Num s) = sum_loop a b (Num (s + (x - y) ^ 2)).
Proof. reflexivity. Qed.

Lemma sum_loop_Num (a b : list R) (s : R) :
  (length a <= length b)%nat ->
  sum_loop (map Num a) (map Num b) (Num s) = Num (s + sq_diff_sum a b).
Proof.
  revert b s; induction a as [|x a IH]; intros b s Hlen.
  - unfold sq_diff_sum. cbn [sum_loop map zip_with fold_right]. f_equal. lra.
  - destruct b as [|y b]; simpl in Hlen; [lia|].
    cbn [map]. rewrite sum_loop_cons.
    rewrite IH by lia. f_equal. unfold sq_diff_sum. cbn [zip_with fold_right]. lra.
Qed.

Lemma sum_loop_short (a b : list R) (s : number) :
  (length b < length a)%nat ->
  sum_loop (map Num a) (map Num b) s = NaN.
Proof.
  revert b s; induction a as [|x a IH]; intros b s Hlen; simpl in *; [lia|].
  destruct b as [|y b]; simpl in *.
  - destruct s; simpl; apply sum_loop_NaN.
  - apply IH. lia.
Qed.

Lemma sq_diff_sum_nonneg a b : 0 <= sq_diff_sum a b.
Proof.
  unfold sq_diff_sum. revert b; induction a as [|x a IH]; intros [|y b];
    cbn [zip_with fold_right]; try lra.
  specialize (IH b). pose proof (pow2_ge_0 (x - y)). lra.
Qed.

Lemma sq_diff_sum_take a b :
  sq_diff_sum a (take (length a) b) = sq_diff_sum a b.
Proof.
  unfold sq_diff_sum. revert b; induction a as [|x a IH]; intros [|y b]; simpl;
    try reflexivity.
  rewrite IH. reflexivity.
Qed.

Lemma sq_diff_sum_zero a b :
  length a = length b -> sq_diff_sum a b = 0 -> a = b.
Proof.
  revert b; induction a as [|x a IH]; intros [|y b] Hlen Hs; simpl in Hlen;
    try discriminate; [reflexivity|].
  unfold sq_diff_sum in Hs; cbn [zip_with fold_right] in Hs.
  pose proof (sq_diff_sum_nonneg a b) as Hge. unfold sq_diff_sum in Hge.
  pose proof (pow2_ge_0 (x - y)) as Hsq.
  assert (Hx : (x - y) ^ 2 = 0) by lra.
  assert (Hr : sq_diff_sum a b = 0) by (unfold sq_diff_sum; lra).
  f_equal.
  - assert (x - y = 0); [|lra].
    destruct (Req_dec (x - y) 0) as [|Hne]; [assumption|].
    exfalso. apply (pow_nonzero _ 2) in Hne. contradiction.
  - apply IH; [lia|assumption].
Qed.

Lemma sq_diff_sum_refl a : sq_diff_sum a a = 0.
Proof.
  unfold sq_diff_sum. induction a as [|x a IH]; cbn [zip_with fold_right];
    [reflexivity|].
  rewrite IH. replace (x - x) with 0 by lra. lra.
Qed.

Lemma Math_sqrt_nonneg x : 0 <= x -> Math_sqrt (Num x) = Num (sqrt x).
Proof. intros Hx. unfold Math_sqrt. destruct (Rlt_dec x 0); [lra|reflexivity]. Qed.

(** On real vectors of which the first is not the longer, the method
    computes the Euclidean distance of the first to the second cut to its
    length. *)
Lemma euclideanDistance_l2 (a b : list R) :
  (length a <= length b)%nat ->
  euclideanDistance (map Num a) (map Num b) = Num (l2 a b).
Proof.
  intros Hlen. rewrite euclideanDistance_sum_loop, sum_loop_Num by assumption.
  rewrite Rplus_0_l. apply Math_sqrt_nonneg, sq_diff_sum_nonneg.
Qed.

Lemma l2_nonneg a b : 0 <= l2 a b.
Proof. apply sqrt_pos. Qed.

Lemma l2_zero a b : length a = length b -> l2 a b = 0 -> a = b.
Proof.
  intros Hlen H0. apply sq_diff_sum_zero; [assumption|].
  apply sqrt_eq_0; [apply sq_diff_sum_nonneg|exact H0].
Qed.

Lemma l2_refl a : l2 a a = 0.
Proof. unfold l2. rewrite sq_diff_sum_refl. apply sqrt_0. Qed.

(** ** Running computations *)

Lemma bind_inr {A B} (m : M A) (f : A -> M B) this a this' t :
  m this = (inr a, this', t) ->
  bind m f this = (let '(r, this'', t') := f a this' in (r, this'', t ++ t')).
Proof. intros H. unfold bind. rewrite H. reflexivity. Qed.

Lemma bind_inl {A B} (m : M A) (f : A -> M B) this e this' t :
  m this = (inl e, this', t) -> bind m f this = (inl e, this', t).
Proof. intros H. unfold bind. rewrite H. reflexivity. Qed.

Lemma bind_ret {A B} (a : A) (f : A -> M B) this : bind (ret a) f this = f a this.
Proof. unfold bind, ret. destruct (f a this) as [[r s] t]. reflexivity. Qed.

Lemma bind_throw {A B} (e : thrown) (f : A -> M B) this :
  bind (throw e) f this = (inl e, this, []).
Proof. reflexivity. Qed.

Lemma bind_get_cache {B : Type} (f : Cache -> M B) this :
  bind get_cache f this = f (codehashCache this) this.
Proof. unfold bind, get_cache. destruct (f _ this) as [[r s] t]. reflexivity. Qed.

Lemma bind_emit {B : Type} (ev : event) (f : unit -> M B) this :
  bind (emit ev) f this = (let '(r, this', t) := f tt this in (r, this', ev :: t)).
Proof. reflexivity. Qed.

Lemma bind_put_cache {B : Type} (c : Cache) (f : unit -> M B) this :
  bind (put_cache c) f this = f tt (set_cache c this).
Proof. unfold bind, put_cache. destruct (f tt _) as [[r s] t]. reflexivity. Qed.

(** Every computation ends: with a value or with a thrown value. *)
Lemma outcome_cases {A} (o : (thrown + A) * Repo * list event) :
  (exists e this t, o = (inl e, this, t)) \/ (exists a this t, o = (inr a, this, t)).
Proof. destruct o as [[[e|a] this] t]; eauto. Qed.

(** ** The distances of the candidates *)

Lemma computeDistances_present files queryEmbedding this :
  Forall (fun f => is_Some (codehashCache this !! f)) files ->
  computeDistances files queryEmbedding this
  = (inr (map (distance_of (codehashCache this) queryEmbedding) files), this, []).
Proof.
  induction 1 as [|f files [entry Hf] _ IH]; [reflexivity|].
  unfold computeDistances in *. cbn [mapM map].
  unfold bind at 1. rewrite bind_get_cache, Hf. unfold ret at 1.
  unfold bind at 1. rewrite IH. unfold ret. cbn.
  unfold distance_of, vector_of. rewrite Hf. reflexivity.
Qed.

(** The first file without an entry ends the ranking with a [TypeError]. *)
Lemma computeDistances_absent files1 f files2 queryEmbedding this :
  Forall (fun g => is_Some (codehashCache this !! g)) files1 ->
  codehashCache this !! f = None ->
  computeDistances (files1 ++ f :: files2) queryEmbedding this
  = (inl (ErrorObject "TypeError"
            "Cannot read properties of undefined (reading 'embedding')"),
     this, []).
Proof.
  intros Hpre Hf. induction Hpre as [|g files1 [entry Hg] _ IH].
  - unfold computeDistances. cbn [app mapM].
    unfold bind at 1. rewrite bind_get_cache, Hf. reflexivity.
  - unfold computeDistances in *. cbn [app mapM].
    unfold bind at 1. rewrite bind_get_cache, Hg. unfold ret at 1.
    unfold bind at 1. rewrite IH. reflexivity.
Qed.

(** ** Sorting *)

Lemma sort_insert_perm {A} (cmp : A -> A -> number) x l :
  Permutation (sort_insert cmp x l) (x :: l).
Proof.
  induction l as [|y l IH]; simpl; [reflexivity|].
  destruct (is_positive (cmp x y)); [|reflexivity].
  rewrite IH. apply perm_swap.
Qed.

Lemma array_sort_perm {A} (cmp : A -> A -> number) l :
  Permutation (array_sort cmp l) l.
Proof.
  induction l as [|x l IH]; simpl; [reflexivity|].
  unfold array_sort in *. rewrite sort_insert_perm. constructor. exact IH.
Qed.

Lemma comparator_positive a b x y :
  distance a = Num x -> distance b = Num y ->
  is_positive (comparator a b) = true <-> y < x.
Proof.
  intros Ha Hb. unfold comparator, is_positive, js_sub. rewrite Ha, Hb.
  destruct (Rlt_dec 0 (x - y)); split; intros; try lra; try discriminate; reflexivity.
Qed.

Lemma sort_insert_sorted x l :
  has_real_distance x -> Forall has_real_distance l ->
  StronglySorted dist_le l ->
  StronglySorted dist_le (sort_insert comparator x l).
Proof.
  intros [vx Hx] Hreal Hsorted. induction Hsorted as [|y l Hs IH Hy]; simpl.
  - repeat constructor.
  - inversion Hreal as [|? ? [vy Hvy] Hreal']; subst.
    destruct (is_positive (comparator x y)) eqn:Hcmp.
    + apply (comparator_positive x y vx vy Hx Hvy) in Hcmp.
      constructor; [apply IH; assumption|].
      eapply Permutation_Forall; [symmetry; apply sort_insert_perm|].
      constructor; [|assumption].
      unfold dist_le. rewrite Hvy, Hx. lra.
    + assert (Hle : vx <= vy).
      { destruct (Rle_dec vx vy) as [|Hn]; [assumption|].
        assert (Hlt : vy < vx) by lra.
        apply (comparator_positive x y vx vy Hx Hvy) in Hlt. congruence. }
      constructor; [constructor; assumption|].
      constructor; [unfold dist_le; rewrite Hx, Hvy; exact Hle|].
      eapply Forall_impl; [exact Hy|].
      intros z Hz. unfold dist_le in *. rewrite Hx. rewrite Hvy in Hz.
      destruct (distance z); [lra|contradiction].
Qed.

Lemma array_sort_sorted l :
  Forall has_real_distance l -> StronglySorted dist_le (array_sort comparator l).
Proof.
  induction 1 as [|x l Hx Hl IH]; simpl; [constructor|].
  apply sort_insert_sorted; [assumption| |exact IH].
  eapply Permutation_Forall; [symmetry; apply array_sort_perm|exact Hl].
Qed.

Lemma StronglySorted_take {A} (R : A -> A -> Prop) n l :
  StronglySorted R l -> StronglySorted R (take n l).
Proof.
  intros H; revert n; induction H as [|x l Hs IH Hx]; intros [|n]; simpl;
    try constructor; auto.
  rewrite List.Forall_forall in *. intros y Hy. apply Hx.
  apply list_elem_of_In. eapply subseteq_take. apply list_elem_of_In. exact Hy.
Qed.

Lemma rank_length l : length (rank l) = Nat.min 5 (length l).
Proof.
  unfold rank. rewrite length_take. f_equal.
  apply Permutation_length, array_sort_perm.
Qed.

Lemma rank_subset l d : In d (rank l) -> In d l.
Proof.
  unfold rank. intros H.
  eapply Permutation_in; [apply array_sort_perm|].
  apply list_elem_of_In. eapply subseteq_take. apply list_elem_of_In. exact H.
Qed.

Lemma rank_head l : head (rank l) = head (array_sort comparator l).
Proof. unfold rank. destruct (array_sort comparator l); reflexivity. Qed.

(** ** Ranking *)

Lemma valid_candidates_present cache q files :
  valid_candidates cache q files -> Forall (fun f => is_Some (cache !! f)) files.
Proof.
  intros H. eapply Forall_impl; [exact H|].
  intros f (entry & v & Hf & _). eauto.
Qed.

Lemma distance_of_valid cache q f entry v :
  cache !! f = Some entry -> values (embedding entry) = map Num v ->
  length v = length q ->
  distance_of cache {| values := map Num q |} f = {| file := f; distance := Num (l2 v q) |}.
Proof.
  intros Hf Hv Hlen. unfold distance_of, vector_of. rewrite Hf, Hv. cbn [values].
  rewrite euclideanDistance_l2 by lia. reflexivity.
Qed.

Lemma valid_candidates_real cache q files :
  valid_candidates cache q files ->
  Forall has_real_distance (map (distance_of cache {| values := map Num q |}) files).
Proof.
  intros H. apply Forall_map. eapply Forall_impl; [exact H|].
  intros f (entry & v & Hf & Hv & Hlen).
  rewrite (distance_of_valid _ _ _ _ _ Hf Hv Hlen). eexists; reflexivity.
Qed.

(** The head of a sorted list is below every element of a permutation of it. *)
Lemma sorted_head_least l l' h d :
  StronglySorted dist_le l -> Permutation l l' -> head l = Some h ->
  In d l' -> h = d \/ dist_le h d.
Proof.
  intros Hs Hp Hh Hd. destruct l as [|h' l]; [discriminate|].
  injection Hh as ->.
  apply (Permutation_in _ (Permutation_sym Hp)) in Hd.
  destruct Hd as [->|Hd]; [left; reflexivity|right].
  inversion Hs as [|? ? _ Hall]; subst.
  rewrite List.Forall_forall in Hall. apply Hall, Hd.
Qed.

(** ** The claims on the fingerprint and on the ranking *)

(** C4: the fingerprint of a text is the fingerprint of every text that
    differs from it only in whitespace, newlines included; the function is
    total, and on the empty string it returns the SHA-256 digest of no
    bytes. *)
Theorem computeCodehash_whitespace_stable (s t : jsstring) :
  ws_variant s t ->
  computeCodehash s = computeCodehash t /\
  computeCodehash [] =
    lit "e3b0c44298fc1c149afbf4c8996fb92427ae41e4649b934ca495991b7852b855".
Proof.
  intros H. split; [|apply sha256_empty].
  unfold computeCodehash. rewrite (remove_whitespace_variant s t H). reflexivity.
Qed.

Lemma computeCodehash_whitespace_stable_witness :
  ws_variant (lit "f (x)") (lit "f(x)
") /\
  computeCodehash (lit "f (x)") = computeCodehash (lit "f(x)
").
Proof.
  assert (H : ws_variant (lit "f (x)") (lit "f(x)
")).
  { cbn. apply wv_keep, wv_delete; [reflexivity|].
    do 3 apply wv_keep. apply wv_insert; [reflexivity|]. constructor. }
  split; [exact H|].
  exact (proj1 (computeCodehash_whitespace_stable _ _ H)).
Defined.

(** C3, as the code has it: on real vectors of unequal length no error is
    raised.  The loop runs over the indices of the first vector (the cached
    one): when it is the shorter, the result is the ordinary distance to the
    second vector (the query) cut to its length; when it is the longer, the
    result is [NaN]. *)
Theorem euclideanDistance_unequal_lengths (a b : list R) :
  euclideanDistance (map Num a) (map Num b) =
  if decide (length a <= length b)%nat
  then Num (l2 a (take (length a) b))
  else NaN.
Proof.
  destruct (decide (length a <= length b)%nat) as [Hle|Hgt].
  - rewrite euclideanDistance_l2 by assumption.
    unfold l2. rewrite sq_diff_sum_take. reflexivity.
  - rewrite euclideanDistance_sum_loop, sum_loop_short by lia. reflexivity.
Qed.

(** C3 as stated fails: a cached vector of one component and a query of two
    give the distance 0, the second component of the query being ignored,
    and the ranking step returns it as the distance of the file. *)
Lemma euclideanDistance_truncates_silently :
  let a := [Num 1] in
  let b := [Num 1; Num 2] in
  let this := {| apiKey := Some (lit "key");
                 codehashCache := {[ lit "/a.dart" :=
                   {| codehash := []; embedding := {| values := a |} |} ]} |} in
  length a <> length b /\
  euclideanDistance a b = Num 0 /\
  computeDistances [lit "/a.dart"] {| values := b |} this
  = (inr [{| file := lit "/a.dart"; distance := Num 0 |}], this, []).
Proof.
  intros a b this.
  assert (Hd : euclideanDistance a b = Num 0).
  { change a with (map Num [1]). change b with (map Num [1; 2]).
    rewrite euclideanDistance_l2 by (cbn; lia).
    f_equal. unfold l2, sq_diff_sum. cbn [zip_with fold_right].
    replace ((1 - 1) ^ 2 + 0) with 0 by lra. apply sqrt_0. }
  split; [cbn; lia|]. split; [exact Hd|].
  rewrite computeDistances_present.
  - cbn [map]. unfold distance_of, vector_of. cbn [codehashCache this].
    rewrite lookup_singleton_eq. cbn [embedding values]. rewrite Hd. reflexivity.
  - constructor; [|constructor]. cbn [codehashCache this].
    rewrite lookup_singleton_eq. eauto.
Qed.

(** C6: when every candidate has a real vector of the dimension of the
    query, the ranking step gives each file the Euclidean distance of its
    vector to the query, which is a non-negative real; the ranked sequence
    is in non-decreasing order of distance, is drawn from these records, and
    has at most min(5, number of candidates) elements. *)
Theorem ranking_sorted_top5 (this : Repo) (q : list R) (files : list jsstring) :
  valid_candidates (codehashCache this) q files ->
  exists distances,
    computeDistances files {| values := map Num q |} this = (inr distances, this, []) /\
    Forall2 (fun f d =>
               file d = f /\
               exists entry v,
                 codehashCache this !! f = Some entry /\
                 values (embedding entry) = map Num v /\
                 distance d = Num (l2 v q) /\ 0 <= l2 v q)
            files distances /\
    StronglySorted dist_le (rank distances) /\
    (forall d, In d (rank distances) -> In d distances) /\
    (length (rank distances) <= Nat.min 5 (length files))%nat.
Proof.
  intros Hvalid.
  exists (map (distance_of (codehashCache this) {| values := map Num q |}) files).
  split; [apply computeDistances_present, (valid_candidates_present _ q), Hvalid|].
  split; [|split; [|split]].
  - apply Forall2_fmap_r, Forall_Forall2_diag.
    eapply Forall_impl; [exact Hvalid|].
    intros f (entry & v & Hf & Hv & Hlen). unfold compose.
    rewrite (distance_of_valid _ _ _ _ _ Hf Hv Hlen). split; [reflexivity|].
    exists entry, v. repeat split; auto. apply l2_nonneg.
  - apply StronglySorted_take, array_sort_sorted, valid_candidates_real, Hvalid.
  - apply rank_subset.
  - rewrite rank_length, length_map. lia.
Qed.

(** C7, as the code has it: when every candidate has a real vector of the
    dimension of the query, a candidate whose vector is the query vector
    has the reported distance 0, and when no other candidate has the
    reported distance 0 it is the first of the ranking.  The condition is on
    the distances as they are reported: in floating point a vector close to
    the query has the reported distance 0 as well. *)
Theorem ranking_exact_match_first (this : Repo) (q : list R)
    (files1 : list jsstring) (f : jsstring) (files2 : list jsstring) :
  valid_candidates (codehashCache this) q (files1 ++ f :: files2) ->
  vector_of (codehashCache this) f = map Num q ->
  Forall (fun g => distance (distance_of (codehashCache this) {| values := map Num q |} g)
                   <> Num 0)
         (files1 ++ files2) ->
  exists distances,
    computeDistances (files1 ++ f :: files2) {| values := map Num q |} this
    = (inr distances, this, []) /\
    In {| file := f; distance := Num 0 |} distances /\
    head (rank distances) = Some {| file := f; distance := Num 0 |}.
Proof.
  intros Hvalid Hf Hothers.
  set (qe := {| values := map Num q |}) in *.
  set (files := files1 ++ f :: files2) in *.
  exists (map (distance_of (codehashCache this) qe) files).
  split; [apply computeDistances_present, (valid_candidates_present _ q), Hvalid|].
  set (ds := map (distance_of (codehashCache this) qe) files).
  assert (Hreal : Forall has_real_distance ds)
    by apply valid_candidates_real, Hvalid.
  assert (Hdf : distance_of (codehashCache this) qe f = {| file := f; distance := Num 0 |}).
  { unfold distance_of. rewrite Hf. unfold qe. cbn [values].
    rewrite euclideanDistance_l2 by lia. rewrite l2_refl. reflexivity. }
  assert (Hin : In {| file := f; distance := Num 0 |} ds).
  { rewrite <- Hdf. apply in_map. unfold files. apply in_or_app. right. left. reflexivity. }
  split; [exact Hin|].
  rewrite rank_head.
  destruct (array_sort comparator ds) as [|h sorted] eqn:Hsort.
  { pose proof (array_sort_perm comparator ds) as Hp. rewrite Hsort in Hp.
    apply Permutation_nil in Hp. rewrite Hp in Hin. destruct Hin. }
  cbn [head]. f_equal.
  pose proof (array_sort_sorted ds Hreal) as Hs.
  pose proof (array_sort_perm comparator ds) as Hp.
  destruct (sorted_head_least _ _ h _ Hs Hp ltac:(rewrite Hsort; reflexivity) Hin)
    as [Heq|Hle]; [exact Heq|].
  assert (Hh : In h ds).
  { eapply Permutation_in; [exact Hp|]. rewrite Hsort. left. reflexivity. }
  apply in_map_iff in Hh. destruct Hh as (g & Hg & Hgin).
  unfold valid_candidates in Hvalid. rewrite List.Forall_forall in Hvalid.
  destruct (Hvalid g Hgin) as (entry & v & Hge & Hv & Hlen).
  assert (Hgd : distance_of (codehashCache this) qe g = {| file := g; distance := Num 0 |}).
  { unfold qe. rewrite (distance_of_valid _ _ _ _ _ Hge Hv Hlen).
    unfold qe in Hg. rewrite (distance_of_valid _ _ _ _ _ Hge Hv Hlen) in Hg. subst h.
    unfold dist_le in Hle. cbn [distance] in Hle.
    assert (Hz : l2 v q = 0) by (pose proof (l2_nonneg v q); lra).
    rewrite Hz. reflexivity. }
  rewrite <- Hg, Hgd.
  assert (g = f) as ->; [|reflexivity].
  unfold files in Hgin. apply in_app_or in Hgin.
  rewrite List.Forall_forall in Hothers.
  destruct Hgin as [Hg1|[Hg2|Hg3]]; [|symmetry; exact Hg2|].
  - exfalso. apply (Hothers g); [apply in_or_app; left; exact Hg1|].
    rewrite Hgd. reflexivity.
  - exfalso. apply (Hothers g); [apply in_or_app; right; exact Hg3|].
    rewrite Hgd. reflexivity.
Qed.

(** C7 as stated fails: the cache holds a vector of one component for the
    first file and the query vector, of two components, for the second.
    The vector of exactly one candidate is the query vector, and the first
    of the ranking is the other candidate: its distance, computed over its
    one component, is 0 as well, and the sort keeps the order of the
    enumeration among equal distances. *)
Lemma exact_match_behind_shorter_vector :
  let q := [Num 1; Num 2] in
  let this := {| apiKey := Some (lit "key");
                 codehashCache :=
                   <[lit "/a.dart" := {| codehash := []; embedding := {| values := [Num 1] |} |}]>
                     (<[lit "/b.dart" := {| codehash := []; embedding := {| values := q |} |}]> ∅)
              |} in
  vector_of (codehashCache this) (lit "/b.dart") = q /\
  vector_of (codehashCache this) (lit "/a.dart") <> q /\
  exists distances,
    computeDistances [lit "/a.dart"; lit "/b.dart"] {| values := q |} this
    = (inr distances, this, []) /\
    head (rank distances) = Some {| file := lit "/a.dart"; distance := Num 0 |} /\
    head (rank distances) <> Some {| file := lit "/b.dart"; distance := Num 0 |}.
Proof.
  intros q this.
  assert (Ha : codehashCache this !! lit "/a.dart"
               = Some {| codehash := []; embedding := {| values := [Num 1] |} |})
    by reflexivity.
  assert (Hb : codehashCache this !! lit "/b.dart"
               = Some {| codehash := []; embedding := {| values := q |} |})
    by reflexivity.
  assert (Hda : euclideanDistance [Num 1] q = Num 0).
  { change [Num 1] with (map Num [1]). change q with (map Num [1; 2]).
    rewrite euclideanDistance_l2 by (cbn; lia).
    f_equal. unfold l2, sq_diff_sum. cbn [zip_with fold_right].
    replace ((1 - 1) ^ 2 + 0) with 0 by lra. apply sqrt_0. }
  assert (Hdb : euclideanDistance q q = Num 0).
  { change q with (map Num [1; 2]).
    rewrite euclideanDistance_l2 by (cbn; lia). rewrite l2_refl. reflexivity. }
  split; [unfold vector_of; rewrite Hb; reflexivity|].
  split; [unfold vector_of; rewrite Ha; discriminate|].
  eexists. split.
  { apply computeDistances_present. repeat constructor; eauto. }
  cbn [map]. unfold distance_of, vector_of. rewrite Ha, Hb. cbn [embedding values].
  rewrite Hda, Hdb.
  assert (Hhead : head (rank [{| file := lit "/a.dart"; distance := Num 0 |};
                              {| file := lit "/b.dart"; distance := Num 0 |}])
                  = Some {| file := lit "/a.dart"; distance := Num 0 |}).
  { rewrite rank_head. unfold array_sort. cbn [foldr sort_insert].
    unfold comparator, js_sub, is_positive. cbn [distance].
    destruct (Rlt_dec 0 (0 - 0)) as [Hlt|_]; [lra|reflexivity]. }
  split; [exact Hhead|]. rewrite Hhead. intros H. injection H as H. discriminate.
Qed.

(** ** The stages of a call as functions of the environment *)

Lemma set_cache_same this : set_cache (codehashCache this) this = this.
Proof. destruct this; reflexivity. Qed.

Lemma set_cache_set c c' this : set_cache c (set_cache c' this) = set_cache c this.
Proof. reflexivity. Qed.

Lemma cacheFilePath_eq env this :
  cacheFilePath env this =
  match cache_path env with
  | None => (inl (new_Error "No workspace folders found."), this, [])
  | Some p => (inr p, this, [])
  end.
Proof. unfold cacheFilePath, cache_path. destruct (workspaceFolder env); reflexivity. Qed.

Lemma loadCache_eq env this :
  exists t,
    loadCache env this =
    (inr tt,
     match loaded_cache env with Some parsed => set_cache parsed this | None => this end,
     t) /\
    Forall (fun e => is_batch_request e = false) t.
Proof.
  unfold loadCache, loaded_cache, try_catch, bind.
  rewrite cacheFilePath_eq.
  destruct (cache_path env) as [p|] eqn:Hp; cbn.
  2: { eexists; split; [reflexivity|repeat constructor]. }
  destruct (existsSync env p); cbn.
  2: { eexists; split; [reflexivity|repeat constructor]. }
  rewrite cacheFilePath_eq, Hp; cbn.
  destruct (readFile env p) as [e|cacheData]; cbn.
  { eexists; split; [reflexivity|repeat constructor]. }
  destruct (JSON_parse env cacheData) as [e|parsed]; cbn.
  { eexists; split; [reflexivity|repeat constructor]. }
  eexists; split; [reflexivity|repeat constructor].
Qed.

Lemma saveCache_eq env this :
  saveCache env this =
  ((save_outcome env (codehashCache this)).1, this, (save_outcome env (codehashCache this)).2).
Proof.
  unfold saveCache, save_outcome, try_catch. rewrite bind_get_cache.
  unfold bind at 1. rewrite cacheFilePath_eq.
  destruct (cache_path env) as [p|]; cbn; [|reflexivity].
  destruct (writeFile env p _) as [[n m|]|[]]; reflexivity.
Qed.

Lemma save_outcome_trace env cache :
  Forall (fun e => is_batch_request e = false) (save_outcome env cache).2.
Proof.
  unfold save_outcome. destruct (cache_path env) as [p|]; [|repeat constructor].
  cbn. destruct (writeFile env p _) as [[n m|]|[]]; repeat constructor.
Qed.

Lemma forEach_emit_eq (files : list jsstring) k this :
  forEach (fun file _ => emit (OpenTextDocument file)) files k this
  = (inr tt, this, map OpenTextDocument files).
Proof.
  revert k; induction files as [|f files IH]; intros k; [reflexivity|].
  cbn [forEach map]. rewrite bind_emit, IH. reflexivity.
Qed.

Lemma readFileContents_eq env files this :
  readFileContents env files this
  = (fileContents_of env files, this, map OpenTextDocument files).
Proof.
  unfold readFileContents. unfold bind at 1. rewrite forEach_emit_eq.
  assert (Hm : mapM (fun file =>
                       (documentText <- lift (openTextDocument env file) ;;
                        ret (fileContent_of env file documentText))%js)
                    files this
               = (fileContents_of env files, this, [])).
  { induction files as [|f files IH]; [reflexivity|].
    cbn [mapM fileContents_of]. unfold bind at 1. unfold bind at 1.
    destruct (openTextDocument env f) as [e|doc]; cbn [lift]; [reflexivity|].
    unfold ret at 1. unfold ret at 1. unfold bind at 1. rewrite IH.
    destruct (fileContents_of env files) as [e|l]; reflexivity. }
  rewrite Hm. rewrite app_nil_r. reflexivity.
Qed.

Lemma forEach_store_eq batch embeddings index this :
  forEach
    (fun embedding index =>
       match batch !! index with
       | None =>
         throw (ErrorObject "TypeError"
                  "Cannot read properties of undefined (reading 'path')")
       | Some fileContent =>
         (cache <- get_cache ;;
          put_cache
            (<[FileContent.path fileContent :=
                 {| codehash := FileContent.codehash fileContent;
                    embedding := embedding |}]> cache))%js
       end)
    embeddings index this
  = (match (store_embeddings batch embeddings index (codehashCache this)).2 with
     | None => inr tt
     | Some e => inl e
     end,
     set_cache (store_embeddings batch embeddings index (codehashCache this)).1 this,
     []).
Proof.
  revert index this; induction embeddings as [|emb embs IH]; intros index this.
  - cbn. rewrite set_cache_same. reflexivity.
  - cbn [forEach store_embeddings].
    destruct (batch !! index) as [fc|] eqn:Hfc.
    + unfold bind at 1. rewrite bind_get_cache. unfold put_cache at 1.
      rewrite IH. cbn [codehashCache set_cache apiKey app]. reflexivity.
    + cbn. rewrite set_cache_same. reflexivity.
Qed.

Lemma processBatch_eq env i batch this :
  processBatch env i batch this
  = (inr tt,
     set_cache (refresh_batch env i batch (codehashCache this)).1 this,
     (refresh_batch env i batch (codehashCache this)).2).
Proof.
  unfold processBatch, refresh_batch, try_catch.
  rewrite bind_emit. unfold bind at 1.
  destruct (batchEmbedContents env i _) as [e|embs]; cbn [lift].
  - cbn. rewrite set_cache_same. reflexivity.
  - unfold ret at 1. rewrite forEach_store_eq.
    destruct (store_embeddings batch embs 0 (codehashCache this)) as [c [e|]];
      reflexivity.
Qed.

Lemma processBatches_eq env batches this :
  processBatches env batches this
  = (inr tt,
     set_cache (refresh_batches env batches 0 (codehashCache this)).1 this,
     (refresh_batches env batches 0 (codehashCache this)).2).
Proof.
  unfold processBatches. generalize 0%nat as i.
  revert this; induction batches as [|b batches IH]; intros this i.
  - cbn. rewrite set_cache_same. reflexivity.
  - cbn [forEach refresh_batches]. unfold bind. rewrite processBatch_eq, IH.
    cbn [codehashCache set_cache].
    destruct (refresh_batch env i b (codehashCache this)) as [c t]. cbn [fst snd].
    destruct (refresh_batches env batches (S i) c) as [c' t']. reflexivity.
Qed.

Lemma computeDistances_pure files queryEmbedding this :
  exists r, computeDistances files queryEmbedding this = (r, this, []).
Proof.
  induction files as [|f files [r IH]]; [eexists; reflexivity|].
  unfold computeDistances in *. cbn [mapM].
  unfold bind at 1. rewrite bind_get_cache.
  destruct (codehashCache this !! f) as [entry|]; [|eexists; reflexivity].
  unfold ret at 1. unfold bind at 1. rewrite IH.
  destruct r; eexists; reflexivity.
Qed.

(** The end of the method leaves the cache as it is and asks for no batch. *)
Lemma persistAndRank_outcome env query files fileContents this :
  exists r t,
    persistAndRank env query files fileContents this = (r, this, t) /\
    Forall (fun e => is_batch_request e = false) t.
Proof.
  unfold persistAndRank. unfold bind at 1. rewrite saveCache_eq.
  pose proof (save_outcome_trace env (codehashCache this)) as Hsave.
  destruct (save_outcome env (codehashCache this)) as [[e|[]] ts]; cbn [fst snd] in *.
  { eexists _, _; split; [reflexivity|exact Hsave]. }
  rewrite bind_emit. unfold bind at 1.
  destruct (embedContent env query) as [e|qe]; cbn [lift].
  { eexists _, _; split; [reflexivity|].
    apply Forall_app; split; [exact Hsave|repeat constructor]. }
  unfold ret at 1. unfold bind at 1.
  destruct (computeDistances_pure files qe this) as [[e|ds] ->].
  { eexists _, _; split; [reflexivity|].
    apply Forall_app; split; [exact Hsave|repeat constructor]. }
  cbn. eexists _, _; split; [reflexivity|].
  apply Forall_app; split; [exact Hsave|repeat constructor].
Qed.

(** When the save throws, the method ends there. *)
Lemma persistAndRank_save_fails env query files fileContents this e :
  (save_outcome env (codehashCache this)).1 = inl e ->
  persistAndRank env query files fileContents this
  = (inl e, this, (save_outcome env (codehashCache this)).2).
Proof.
  intros H. unfold persistAndRank. unfold bind at 1. rewrite saveCache_eq, H.
  reflexivity.
Qed.

Lemma refreshAndRank_eq env query this files fileContents :
  findFiles env = inr files ->
  fileContents_of env files = inr fileContents ->
  refreshAndRank env query this =
  (let cache := codehashCache this in
   let rb := refresh_batches env (make_batches (filesToUpdate cache fileContents)) 0 cache in
   let '(r, this', t) := persistAndRank env query files fileContents (set_cache rb.1 this) in
   (r, this', FindFiles :: map OpenTextDocument files ++ rb.2 ++ t)).
Proof.
  intros Hfiles Hfcs. unfold refreshAndRank.
  rewrite bind_emit. unfold bind at 1. rewrite Hfiles. cbn [lift]. unfold ret at 1.
  unfold bind at 1. rewrite readFileContents_eq, Hfcs.
  rewrite bind_get_cache. unfold bind at 1. rewrite processBatches_eq.
  cbn zeta.
  destruct (persistAndRank env query files fileContents _) as [[r s] t].
  reflexivity.
Qed.

Lemma refreshAndRank_no_listing env query this e :
  findFiles env = inl e ->
  refreshAndRank env query this = (inl e, this, [FindFiles]).
Proof.
  intros H. unfold refreshAndRank. rewrite bind_emit. unfold bind at 1. rewrite H.
  reflexivity.
Qed.

Lemma refreshAndRank_no_document env query this files e :
  findFiles env = inr files ->
  fileContents_of env files = inl e ->
  refreshAndRank env query this = (inl e, this, FindFiles :: map OpenTextDocument files).
Proof.
  intros Hfiles Hfcs. unfold refreshAndRank.
  rewrite bind_emit. unfold bind at 1. rewrite Hfiles. cbn [lift]. unfold ret at 1.
  unfold bind at 1. rewrite readFileContents_eq, Hfcs.
  cbn [app]. rewrite ?app_nil_r. reflexivity.
Qed.

Lemma findClosestDartFiles_no_key env query this :
  falsy (apiKey this) = true ->
  findClosestDartFiles env query this
  = (inl api_token_error, this,
     [ConsoleError "Error finding closest Dart files: " api_token_error]).
Proof.
  intros H. unfold findClosestDartFiles, try_catch. rewrite H. reflexivity.
Qed.

Lemma findClosestDartFiles_eq env query this :
  falsy (apiKey this) = false ->
  exists tl,
    Forall (fun e => is_batch_request e = false) tl /\
    findClosestDartFiles env query this =
    (let '(r, this', t) :=
       try_catch (refreshAndRank env query) rethrow (state_after_load env this) in
     (r, this', tl ++ t)).
Proof.
  intros H. unfold findClosestDartFiles, state_after_load.
  unfold try_catch at 1. rewrite H.
  destruct (Nat.eqb (size (codehashCache this)) 0).
  - destruct (loadCache_eq env this) as (tl & Hl & Htl).
    exists tl. split; [exact Htl|].
    unfold bind. rewrite Hl. unfold try_catch.
    destruct (refreshAndRank env query _) as [[[e|a] s] t]; cbn;
      rewrite ?app_assoc; reflexivity.
  - exists []. split; [constructor|].
    rewrite bind_ret. unfold try_catch.
    destruct (refreshAndRank env query this) as [[[e|a] s] t]; reflexivity.
Qed.

(** ** A call without a credential *)

(** C9: without a credential the call throws the configuration error at
    once: the object is unchanged and the only event of the call is the
    report of that error; no cache file is looked for or read, no file is
    enumerated or opened, nothing is written and no remote request is made. *)
Theorem missing_api_key_fails_before_io (env : Env) (query : jsstring) (this : Repo) :
  falsy (apiKey this) = true ->
  result_of (findClosestDartFiles env query this) = inl api_token_error /\
  state_of (findClosestDartFiles env query this) = this /\
  trace_of (findClosestDartFiles env query this)
    = [ConsoleError "Error finding closest Dart files: " api_token_error] /\
  Forall (fun e => is_file_io e = false) (trace_of (findClosestDartFiles env query this)).
Proof.
  intros H. rewrite (findClosestDartFiles_no_key env query this H).
  repeat split. repeat constructor.
Qed.

(** ** Loading and saving the cache *)

Lemma size_zero_empty (c : Cache) : size c = 0%nat -> c = ∅.
Proof. apply map_size_empty_iff. Qed.


(** ** A failed batch *)

(** A batch whose request fails writes nothing into the cache. *)
Lemma refresh_batch_failed env i batch cache e :
  batchEmbedContents env i (map FileContent.text batch) = inl e ->
  refresh_batch env i batch cache
  = (cache, [BatchEmbedContents (map FileContent.text batch); batch_failure e]).
Proof. intros H. unfold refresh_batch. rewrite H. reflexivity. Qed.

(** C1, where the code departs from it.  The remote model is down and the
    only batch of the call fails.
    - With an empty cache the file of the batch has no entry when the
      distances are computed: the call does not rank the remaining files, it
      throws a [TypeError].
    - With a cache that holds the vector of an earlier content of the file,
      that vector, whose fingerprint is not the one of the file, is used:
      the file is ranked and returned. *)
Theorem failed_batch_breaks_ranking :
  let env := with_batchEmbedContents remote_down sample_env in
  let file := lit "/w/lib/main.dart" in
  let current := fileContent_of env file (lit "void main() {}") in
  result_of (findClosestDartFiles env (lit "entry point") fresh_repo)
  = inl (ErrorObject "TypeError"
           "Cannot read properties of undefined (reading 'embedding')") /\
  (needs_update (codehashCache stale_repo) current = true /\
   result_of (findClosestDartFiles env (lit "entry point") stale_repo)
   = inr (trim (FileContent.text current)) /\
   state_of (findClosestDartFiles env (lit "entry point") stale_repo) = stale_repo /\
   In (PostMessage [lit "main.dart"])
      (trace_of (findClosestDartFiles env (lit "entry point") stale_repo))).
Proof.
  cbv zeta. split; [vm_compute; reflexivity|].
  split; [vm_compute; reflexivity|].
  split; [vm_compute; reflexivity|].
  split; [vm_compute; reflexivity|].
  vm_compute. do 6 right. left. reflexivity.
Qed.

(** ** The refresh of the cache *)

Lemma fresh_iff cache fc :
  fresh cache fc <->
  exists entry, cache !! FileContent.path fc = Some entry /\
                codehash entry = FileContent.codehash fc.
Proof.
  unfold fresh, needs_update.
  destruct (cache !! FileContent.path fc) as [entry|]; split.
  - intros H. exists entry. split; [reflexivity|].
    apply negb_false_iff, bool_decide_eq_true in H. exact H.
  - intros (entry' & [= <-] & H). apply negb_false_iff, bool_decide_eq_true. exact H.
  - discriminate.
  - intros (entry & [=] & _).
Qed.

Lemma needs_update_iff cache fc :
  needs_update cache fc = true <->
  cache !! FileContent.path fc = None \/
  exists entry, cache !! FileContent.path fc = Some entry /\
                codehash entry <> FileContent.codehash fc.
Proof.
  unfold needs_update.
  destruct (cache !! FileContent.path fc) as [entry|]; split.
  - intros H. right. exists entry. split; [reflexivity|].
    apply negb_true_iff, bool_decide_eq_false in H. exact H.
  - intros [[=]|(entry' & [= <-] & H)].
    apply negb_true_iff, bool_decide_eq_false. exact H.
  - intros _. left. reflexivity.
  - reflexivity.
Qed.

Lemma fresh_insert_same cache fc emb :
  fresh (<[FileContent.path fc :=
             {| codehash := FileContent.codehash fc; embedding := emb |}]> cache) fc.
Proof.
  apply fresh_iff. eexists. rewrite lookup_insert_eq. split; reflexivity.
Qed.

Lemma fresh_insert_preserved L cache a b emb :
  consistent L -> In a L -> In b L -> fresh cache a ->
  fresh (<[FileContent.path b :=
             {| codehash := FileContent.codehash b; embedding := emb |}]> cache) a.
Proof.
  intros HL Ha Hb Hfresh. apply fresh_iff.
  destruct (decide (FileContent.path b = FileContent.path a)) as [Heq|Hne].
  - rewrite Heq, lookup_insert_eq. eexists. split; [reflexivity|].
    cbn. symmetry. apply HL; auto.
  - rewrite lookup_insert_ne by exact Hne. apply fresh_iff, Hfresh.
Qed.

Lemma store_embeddings_fresh L batch :
  consistent L -> (forall fc, In fc batch -> In fc L) ->
  forall embeddings index cache,
    (forall a, In a L -> fresh cache a ->
               fresh (store_embeddings batch embeddings index cache).1 a) /\
    ((store_embeddings batch embeddings index cache).2 = None ->
     forall k fc, (index <= k < index + length embeddings)%nat ->
                  batch !! k = Some fc ->
                  fresh (store_embeddings batch embeddings index cache).1 fc).
Proof.
  intros HL Hsub. induction embeddings as [|emb embs IH]; intros index cache.
  - cbn. split; [auto|]. intros _ k fc Hk. lia.
  - cbn [store_embeddings length].
    destruct (batch !! index) as [fc0|] eqn:Hfc0.
    + assert (Hin0 : In fc0 L).
      { apply Hsub, list_elem_of_In, list_elem_of_lookup. eauto. }
      destruct (IH (S index)
                  (<[FileContent.path fc0 :=
                       {| codehash := FileContent.codehash fc0; embedding := emb |}]> cache))
        as [IH1 IH2].
      split.
      * intros a Ha Hfresh. apply IH1; [exact Ha|].
        apply (fresh_insert_preserved L); assumption.
      * intros Hnone k fc Hk Hfc.
        destruct (decide (k = index)) as [->|Hne].
        -- rewrite Hfc0 in Hfc. injection Hfc as <-.
           apply IH1; [exact Hin0|apply fresh_insert_same].
        -- apply (IH2 Hnone k fc); [lia|exact Hfc].
    + cbn. split; [auto|discriminate].
Qed.

Lemma refresh_batch_fresh env L i batch cache :
  aligned_lengths env -> consistent L -> (forall fc, In fc batch -> In fc L) ->
  (forall a, In a L -> fresh cache a -> fresh (refresh_batch env i batch cache).1 a) /\
  (Forall (fun e => is_batch_failure e = false) (refresh_batch env i batch cache).2 ->
   forall fc, In fc batch -> fresh (refresh_batch env i batch cache).1 fc).
Proof.
  intros Hal HL Hsub. unfold refresh_batch.
  destruct (batchEmbedContents env i (map FileContent.text batch)) as [e|embs] eqn:Hb.
  - cbn. split; [auto|]. intros Hno. inversion Hno as [|? ? _ Hno']; subst.
    inversion Hno' as [|? ? Hf _]; subst. discriminate.
  - destruct (store_embeddings_fresh L batch HL Hsub embs 0%nat cache) as [H1 H2].
    apply Hal in Hb. rewrite length_map in Hb.
    destruct (store_embeddings batch embs 0 cache) as [c [e|]]; cbn [fst snd] in *.
    + split; [exact H1|]. intros Hno. inversion Hno as [|? ? _ Hno']; subst.
      inversion Hno' as [|? ? Hf _]; subst. discriminate.
    + split; [exact H1|]. intros _ fc Hfc.
      apply list_elem_of_In, list_elem_of_lookup in Hfc. destruct Hfc as [k Hk].
      apply (H2 eq_refl k fc); [|exact Hk].
      apply lookup_lt_Some in Hk. lia.
Qed.

Lemma refresh_batches_fresh env L :
  aligned_lengths env -> consistent L ->
  forall batches i cache,
    (forall fc, In fc (concat batches) -> In fc L) ->
    (forall a, In a L -> fresh cache a -> fresh (refresh_batches env batches i cache).1 a) /\
    (Forall (fun e => is_batch_failure e = false) (refresh_batches env batches i cache).2 ->
     forall fc, In fc (concat batches) -> fresh (refresh_batches env batches i cache).1 fc).
Proof.
  intros Hal HL. induction batches as [|b batches IH]; intros i cache Hsub.
  - cbn. split; [auto|]. intros _ fc [].
  - cbn [refresh_batches concat] in *.
    assert (Hb : forall fc, In fc b -> In fc L)
      by (intros fc Hfc; apply Hsub, in_or_app; left; exact Hfc).
    assert (Hbs : forall fc, In fc (concat batches) -> In fc L)
      by (intros fc Hfc; apply Hsub, in_or_app; right; exact Hfc).
    destruct (refresh_batch_fresh env L i b cache Hal HL Hb) as [B1 B2].
    destruct (refresh_batch env i b cache) as [c t]. cbn [fst snd] in *.
    destruct (IH (S i) c Hbs) as [IH1 IH2].
    destruct (refresh_batches env batches (S i) c) as [c' t']. cbn [fst snd] in *.
    split.
    + intros a Ha Hfresh. apply IH1; [exact Ha|]. apply B1; assumption.
    + intros Hno fc Hfc. apply Forall_app in Hno. destruct Hno as [Hno1 Hno2].
      apply in_app_or in Hfc. destruct Hfc as [Hfc|Hfc].
      * apply IH1; [apply Hb, Hfc|]. apply B2; assumption.
      * apply IH2; assumption.
Qed.

Lemma slices_concat {A} (n : nat) :
  (0 < n)%nat ->
  forall rounds (l : list A), (length l <= rounds)%nat -> concat (slices rounds n l) = l.
Proof.
  intros Hn. induction rounds as [|r IH]; intros l Hl.
  - destruct l; [reflexivity|cbn in Hl; lia].
  - destruct l as [|x l]; [reflexivity|].
    cbn [slices concat]. rewrite IH.
    + apply take_drop.
    + rewrite length_drop. cbn [length] in *. lia.
Qed.

Lemma make_batches_concat {A} (l : list A) : concat (make_batches l) = l.
Proof. apply slices_concat; lia. Qed.

Lemma fileContents_of_spec env files fileContents :
  fileContents_of env files = inr fileContents ->
  Forall2 (fun f fc => exists documentText,
               openTextDocument env f = inr documentText /\
               fc = fileContent_of env f documentText)
          files fileContents.
Proof.
  revert fileContents; induction files as [|f files IH]; intros fcs H; cbn in H.
  - injection H as <-. constructor.
  - destruct (openTextDocument env f) as [e|doc] eqn:Hd; [discriminate|].
    destruct (fileContents_of env files) as [e|l]; [discriminate|].
    injection H as <-. constructor; [eauto|]. apply IH. reflexivity.
Qed.

Lemma fileContents_of_In env files fileContents fc :
  fileContents_of env files = inr fileContents -> In fc fileContents ->
  exists documentText,
    openTextDocument env (FileContent.path fc) = inr documentText /\
    fc = fileContent_of env (FileContent.path fc) documentText.
Proof.
  intros H Hin. apply fileContents_of_spec in H.
  induction H as [|f fc' files fcs (doc & Hd & ->) _ IH]; [destruct Hin|].
  destruct Hin as [<-|Hin]; [|apply IH, Hin].
  exists doc. split; [exact Hd|reflexivity].
Qed.

Lemma fileContents_of_consistent env files fileContents :
  fileContents_of env files = inr fileContents -> consistent fileContents.
Proof.
  intros H a b Ha Hb Hpath.
  destruct (fileContents_of_In _ _ _ a H Ha) as (da & Hda & Ea).
  destruct (fileContents_of_In _ _ _ b H Hb) as (db & Hdb & Eb).
  rewrite Hpath, Hdb in Hda. injection Hda as <-.
  rewrite Ea, Eb, Hpath. reflexivity.
Qed.

Lemma fileContents_of_same env1 env2 files :
  same_files env1 env2 -> fileContents_of env2 files = fileContents_of env1 files.
Proof.
  intros (_ & Hopen & Hrel). induction files as [|f files IH]; [reflexivity|].
  cbn [fileContents_of]. rewrite Hopen, IH.
  destruct (openTextDocument env1 f); [reflexivity|].
  destruct (fileContents_of env1 files); [reflexivity|].
  unfold fileContent_of. rewrite Hrel. reflexivity.
Qed.

Lemma filesToUpdate_fresh cache fileContents :
  (forall fc, In fc fileContents -> fresh cache fc) ->
  filesToUpdate cache fileContents = [].
Proof.
  intros H. unfold filesToUpdate. induction fileContents as [|fc l IH]; [reflexivity|].
  cbn [List.filter]. rewrite (H fc) by (left; reflexivity).
  apply IH. intros fc' Hfc'. apply H. right. exact Hfc'.
Qed.

Lemma try_catch_rethrow_eq (m : M jsstring) this r this' t :
  m this = (r, this', t) ->
  try_catch m rethrow this =
  (r, this', t ++ match r with
                  | inl e => [ConsoleError "Error finding closest Dart files: " e]
                  | inr _ => []
                  end).
Proof.
  intros H. unfold try_catch. rewrite H. destruct r as [e|a]; cbn.
  - reflexivity.
  - rewrite app_nil_r. reflexivity.
Qed.

Lemma state_after_load_apiKey env this : apiKey (state_after_load env this) = apiKey this.
Proof.
  unfold state_after_load. destruct (Nat.eqb _ _); [|reflexivity].
  destruct (loaded_cache env); reflexivity.
Qed.

Lemma state_after_load_nonempty env this :
  size (codehashCache this) <> 0%nat -> state_after_load env this = this.
Proof.
  intros H. unfold state_after_load.
  destruct (Nat.eqb_spec (size (codehashCache this)) 0); [contradiction|reflexivity].
Qed.

(** ** The outcome of a call with a credential *)

Lemma call_no_listing env query this e :
  falsy (apiKey this) = false ->
  findFiles env = inl e ->
  exists tl,
    Forall (fun ev => is_batch_request ev = false) tl /\
    findClosestDartFiles env query this =
    (inl e, state_after_load env this,
     tl ++ [FindFiles; ConsoleError "Error finding closest Dart files: " e]).
Proof.
  intros Hkey Hfiles.
  destruct (findClosestDartFiles_eq env query this Hkey) as (tl & Htl & ->).
  exists tl. split; [exact Htl|].
  rewrite (try_catch_rethrow_eq _ _ _ _ _
             (refreshAndRank_no_listing env query _ e Hfiles)).
  reflexivity.
Qed.

Lemma call_no_document env query this files e :
  falsy (apiKey this) = false ->
  findFiles env = inr files ->
  fileContents_of env files = inl e ->
  exists tl,
    Forall (fun ev => is_batch_request ev = false) tl /\
    findClosestDartFiles env query this =
    (inl e, state_after_load env this,
     tl ++ (FindFiles :: map OpenTextDocument files)
        ++ [ConsoleError "Error finding closest Dart files: " e]).
Proof.
  intros Hkey Hfiles Hfcs.
  destruct (findClosestDartFiles_eq env query this Hkey) as (tl & Htl & ->).
  exists tl. split; [exact Htl|].
  rewrite (try_catch_rethrow_eq _ _ _ _ _
             (refreshAndRank_no_document env query _ files e Hfiles Hfcs)).
  reflexivity.
Qed.

Lemma call_refresh env query this files fileContents :
  falsy (apiKey this) = false ->
  findFiles env = inr files ->
  fileContents_of env files = inr fileContents ->
  exists tl r t,
    Forall (fun ev => is_batch_request ev = false) tl /\
    Forall (fun ev => is_batch_request ev = false) t /\
    findClosestDartFiles env query this =
    (let this0 := state_after_load env this in
     let cache := codehashCache this0 in
     let rb := refresh_batches env (make_batches (filesToUpdate cache fileContents)) 0 cache in
     (r, set_cache rb.1 this0,
      tl ++ (FindFiles :: map OpenTextDocument files) ++ rb.2 ++ t)).
Proof.
  intros Hkey Hfiles Hfcs.
  destruct (findClosestDartFiles_eq env query this Hkey) as (tl & Htl & ->).
  pose proof (refreshAndRank_eq env query (state_after_load env this)
                files fileContents Hfiles Hfcs) as Heq.
  cbv zeta in Heq.
  destruct (persistAndRank_outcome env query files fileContents
              (set_cache
                 (refresh_batches env
                    (make_batches
                       (filesToUpdate (codehashCache (state_after_load env this))
                                      fileContents))
                    0 (codehashCache (state_after_load env this))).1
                 (state_after_load env this)))
    as (r & t & Hp & Ht).
  rewrite Hp in Heq.
  rewrite (try_catch_rethrow_eq _ _ _ _ _ Heq).
  exists tl, r,
    (t ++ match r with
          | inl e => [ConsoleError "Error finding closest Dart files: " e]
          | inr _ => []
          end).
  split; [exact Htl|]. split.
  - apply Forall_app. split; [exact Ht|]. destruct r; repeat constructor.
  - cbv zeta. f_equal. f_equal. cbn [app]. f_equal.
    rewrite <- !app_assoc. reflexivity.
Qed.

Lemma call_apiKey env query this :
  apiKey (state_of (findClosestDartFiles env query this)) = apiKey this.
Proof.
  destruct (falsy (apiKey this)) eqn:Hkey.
  { rewrite findClosestDartFiles_no_key by exact Hkey. reflexivity. }
  destruct (findFiles env) as [e|files] eqn:Hfiles.
  { destruct (call_no_listing env query this e Hkey Hfiles) as (tl & _ & ->).
    apply state_after_load_apiKey. }
  destruct (fileContents_of env files) as [e|fcs] eqn:Hfcs.
  { destruct (call_no_document env query this files e Hkey Hfiles Hfcs) as (tl & _ & ->).
    apply state_after_load_apiKey. }
  destruct (call_refresh env query this files fcs Hkey Hfiles Hfcs)
    as (tl & r & t & _ & _ & ->).
  cbv zeta. unfold state_of. cbn [fst snd set_cache apiKey].
  apply state_after_load_apiKey.
Qed.

(** ** Idempotence *)

(** C8: when no batch of a call failed (the remote model answering a batch
    with one embedding for each text), a second call on the same files with
    the same contents makes no batch request: every file is served from the
    cache.  The diffing step selects a file exactly when the cache has no
    entry for its path or an entry with another fingerprint. *)
Theorem second_call_embeds_nothing (env1 env2 : Env) (query1 query2 : jsstring)
    (this : Repo) :
  aligned_lengths env1 ->
  same_files env1 env2 ->
  Forall (fun e => is_batch_failure e = false)
         (trace_of (findClosestDartFiles env1 query1 this)) ->
  Forall (fun e => is_batch_request e = false)
         (trace_of (findClosestDartFiles env2 query2
                      (state_of (findClosestDartFiles env1 query1 this)))) /\
  (forall cache fileContents fc,
      In fc (filesToUpdate cache fileContents) <->
      In fc fileContents /\
      (cache !! FileContent.path fc = None \/
       exists entry, cache !! FileContent.path fc = Some entry /\
                     codehash entry <> FileContent.codehash fc)).
Proof.
  intros Hal Hsame Hnofail. split.
  2: { intros cache fcs fc. unfold filesToUpdate. rewrite filter_In, needs_update_iff.
       reflexivity. }
  pose proof (call_apiKey env1 query1 this) as Hkey1.
  set (this1 := state_of (findClosestDartFiles env1 query1 this)) in *.
  destruct (falsy (apiKey this)) eqn:Hkey.
  { rewrite findClosestDartFiles_no_key by (rewrite Hkey1; exact Hkey).
    repeat constructor. }
  assert (Hkey2 : falsy (apiKey this1) = false) by (rewrite Hkey1; exact Hkey).
  destruct (findFiles env2) as [e|files] eqn:Hfiles2.
  { destruct (call_no_listing env2 query2 this1 e Hkey2 Hfiles2) as (tl & Htl & ->).
    apply Forall_app. split; [exact Htl|repeat constructor]. }
  destruct (fileContents_of env2 files) as [e|fcs] eqn:Hfcs2.
  { destruct (call_no_document env2 query2 this1 files e Hkey2 Hfiles2 Hfcs2)
      as (tl & Htl & ->).
    unfold trace_of. cbn [snd]. apply Forall_app. split; [exact Htl|].
    apply Forall_app. split; [|repeat constructor].
    constructor; [reflexivity|]. apply Forall_map. apply Forall_true. reflexivity. }
  assert (Hfiles1 : findFiles env1 = inr files).
  { destruct Hsame as (Hf & _). rewrite <- Hf. exact Hfiles2. }
  assert (Hfcs1 : fileContents_of env1 files = inr fcs).
  { rewrite <- (fileContents_of_same env1 env2 files Hsame). exact Hfcs2. }
  (* the first call *)
  destruct (call_refresh env1 query1 this files fcs Hkey Hfiles1 Hfcs1)
    as (tl1 & r1 & t1 & _ & _ & Hcall1).
  cbv zeta in Hcall1.
  set (cache0 := codehashCache (state_after_load env1 this)) in *.
  set (rb := refresh_batches env1 (make_batches (filesToUpdate cache0 fcs)) 0 cache0) in *.
  assert (Hstate1 : codehashCache this1 = rb.1).
  { unfold this1. rewrite Hcall1. reflexivity. }
  assert (Hno : Forall (fun e => is_batch_failure e = false) rb.2).
  { rewrite Hcall1 in Hnofail. unfold trace_of in Hnofail. cbn [snd] in Hnofail.
    apply Forall_app in Hnofail. destruct Hnofail as [_ Hnofail].
    apply Forall_app in Hnofail. destruct Hnofail as [_ Hnofail].
    apply Forall_app in Hnofail. destruct Hnofail as [Hnofail _]. exact Hnofail. }
  assert (Hfresh : forall fc, In fc fcs -> fresh (codehashCache this1) fc).
  { rewrite Hstate1. intros fc Hfc.
    destruct (refresh_batches_fresh env1 fcs Hal
                (fileContents_of_consistent _ _ _ Hfcs1)
                (make_batches (filesToUpdate cache0 fcs)) 0%nat cache0) as [F1 F2].
    { intros fc'. rewrite make_batches_concat. unfold filesToUpdate.
      rewrite filter_In. tauto. }
    fold rb in F1, F2.
    destruct (needs_update cache0 fc) eqn:Hneeds.
    - apply (F2 Hno). rewrite make_batches_concat. unfold filesToUpdate.
      apply filter_In. split; assumption.
    - apply F1; assumption. }
  (* the second call *)
  destruct (call_refresh env2 query2 this1 files fcs Hkey2 Hfiles2 Hfcs2)
    as (tl2 & r2 & t2 & Htl2 & Ht2 & ->).
  cbv zeta. unfold trace_of. cbn [snd].
  assert (Hnone : filesToUpdate (codehashCache (state_after_load env2 this1)) fcs = []).
  { destruct fcs as [|fc fcs']; [reflexivity|].
    rewrite state_after_load_nonempty; [apply filesToUpdate_fresh, Hfresh|].
    destruct (proj1 (fresh_iff _ _) (Hfresh fc (or_introl eq_refl))) as (entry & Hentry & _).
    intros Hsize. apply size_zero_empty in Hsize. rewrite Hsize in Hentry.
    rewrite lookup_empty in Hentry. discriminate. }
  rewrite Hnone. cbn [make_batches length slices refresh_batches fst snd app].
  apply Forall_app. split; [exact Htl2|].
  constructor; [reflexivity|].
  apply Forall_app. split; [|exact Ht2].
  apply Forall_map. apply Forall_true. reflexivity.
Qed.

(** ** The entries written by a call *)

Lemma store_embeddings_entries embeds batch :
  forall embeddings index cache,
    Forall2 embeds (map FileContent.text (drop index batch)) embeddings ->
    forall p entry,
      (store_embeddings batch embeddings index cache).1 !! p = Some entry ->
      cache !! p = Some entry \/
      exists fc, In fc batch /\ FileContent.path fc = p /\ paired embeds fc entry.
Proof.
  induction embeddings as [|emb embs IH]; intros index cache Hal p entry Hp.
  - left. exact Hp.
  - destruct (drop index batch) as [|fc0 rest] eqn:Hdrop; [inversion Hal|].
    cbn [map] in Hal. inversion Hal as [|? ? ? ? Hemb Hrest]; subst.
    assert (Hfc0 : batch !! index = Some fc0).
    { rewrite <- (Nat.add_0_r index), <- lookup_drop, Hdrop. reflexivity. }
    assert (Hrest' : drop (S index) batch = rest).
    { rewrite <- tail_drop, Hdrop. reflexivity. }
    cbn [store_embeddings] in Hp. rewrite Hfc0 in Hp.
    apply IH in Hp; [|rewrite Hrest'; exact Hrest].
    destruct Hp as [Hp|Hp]; [|right; exact Hp].
    destruct (decide (FileContent.path fc0 = p)) as [Heq|Hne].
    + rewrite Heq, lookup_insert_eq in Hp. injection Hp as <-.
      right. exists fc0. split.
      * apply list_elem_of_In, list_elem_of_lookup. eauto.
      * split; [exact Heq|]. split; [reflexivity|exact Hemb].
    + rewrite lookup_insert_ne in Hp by exact Hne. left. exact Hp.
Qed.

Lemma refresh_batch_entries embeds env i batch cache :
  aligned embeds env ->
  forall p entry,
    (refresh_batch env i batch cache).1 !! p = Some entry ->
    cache !! p = Some entry \/
    exists fc, In fc batch /\ FileContent.path fc = p /\ paired embeds fc entry.
Proof.
  intros Hal p entry. unfold refresh_batch.
  destruct (batchEmbedContents env i (map FileContent.text batch)) as [e|embs] eqn:Hb.
  - cbn. auto.
  - apply Hal in Hb.
    pose proof (store_embeddings_entries embeds batch embs 0%nat cache) as Hs.
    rewrite drop_0 in Hs. specialize (Hs Hb p entry).
    destruct (store_embeddings batch embs 0 cache) as [c [e|]]; exact Hs.
Qed.

Lemma refresh_batches_entries embeds env :
  aligned embeds env ->
  forall batches i cache p entry,
    (refresh_batches env batches i cache).1 !! p = Some entry ->
    cache !! p = Some entry \/
    exists fc, In fc (concat batches) /\ FileContent.path fc = p /\ paired embeds fc entry.
Proof.
  intros Hal. induction batches as [|b batches IH]; intros i cache p entry Hp.
  - left. exact Hp.
  - cbn [refresh_batches concat] in *.
    pose proof (refresh_batch_entries embeds env i b cache Hal p entry) as Hb.
    destruct (refresh_batch env i b cache) as [c t]. cbn [fst] in Hb.
    specialize (IH (S i) c p entry).
    destruct (refresh_batches env batches (S i) c) as [c' t']. cbn [fst] in *.
    destruct (IH Hp) as [Hc|(fc & Hin & Hpath & Hpaired)].
    + destruct (Hb Hc) as [Hc0|(fc & Hin & Hpath & Hpaired)]; [left; exact Hc0|].
      right. exists fc. split; [apply in_or_app; left; exact Hin|]. split; assumption.
    + right. exists fc. split; [apply in_or_app; right; exact Hin|]. split; assumption.
Qed.

Lemma state_after_load_lookup env this p entry :
  codehashCache this !! p = Some entry ->
  codehashCache (state_after_load env this) !! p = Some entry.
Proof.
  intros Hp. rewrite state_after_load_nonempty; [exact Hp|].
  intros Hsize. apply size_zero_empty in Hsize. rewrite Hsize, lookup_empty in Hp.
  discriminate.
Qed.

(** C10: provided the remote model answers a batch with the embeddings of
    its texts in their order, every entry of the cache after a call is an
    entry of the cache with which the refresh started (the cache in memory
    or the one loaded from the file), or it is the entry of a file of the
    call and pairs the fingerprint of the text rendered for that file with
    an embedding of that same text. *)
Theorem written_entries_pair_fingerprint_with_embedding
    (embeds : jsstring -> ContentEmbedding -> Prop)
    (env : Env) (query : jsstring) (this : Repo) :
  aligned embeds env ->
  forall p entry,
    codehashCache (state_of (findClosestDartFiles env query this)) !! p = Some entry ->
    codehashCache (state_after_load env this) !! p = Some entry \/
    exists documentText,
      openTextDocument env p = inr documentText /\
      let text := render (basename p) (asRelativePath env p) documentText in
      codehash entry = computeCodehash text /\
      embeds text (embedding entry).
Proof.
  intros Hal p entry Hp.
  destruct (falsy (apiKey this)) eqn:Hkey.
  { rewrite findClosestDartFiles_no_key in Hp by exact Hkey.
    left. apply state_after_load_lookup. exact Hp. }
  destruct (findFiles env) as [e|files] eqn:Hfiles.
  { destruct (call_no_listing env query this e Hkey Hfiles) as (tl & _ & Hc).
    rewrite Hc in Hp. left. exact Hp. }
  destruct (fileContents_of env files) as [e|fcs] eqn:Hfcs.
  { destruct (call_no_document env query this files e Hkey Hfiles Hfcs) as (tl & _ & Hc).
    rewrite Hc in Hp. left. exact Hp. }
  destruct (call_refresh env query this files fcs Hkey Hfiles Hfcs)
    as (tl & r & t & _ & _ & Hc).
  rewrite Hc in Hp. cbv zeta in Hp. unfold state_of in Hp.
  cbn [fst snd set_cache codehashCache] in Hp.
  apply (refresh_batches_entries embeds env Hal) in Hp.
  destruct Hp as [Hp|(fc & Hin & Hpath & Hcode & Hemb)]; [left; exact Hp|right].
  rewrite make_batches_concat in Hin. unfold filesToUpdate in Hin.
  apply filter_In in Hin. destruct Hin as [Hin _].
  destruct (fileContents_of_In env files fcs fc Hfcs Hin) as (doc & Hdoc & Hfc).
  rewrite Hpath in Hdoc, Hfc. exists doc. split; [exact Hdoc|].
  cbv zeta. rewrite Hfc in Hcode, Hemb. split; [exact Hcode|exact Hemb].
Qed.

(** ** Partial failure *)

(** What holds of a call of which some batches fail: the entries of the
    files of a batch that succeeded are in the cache after the refresh,
    whatever happens to the batches before and after it; a file without an
    entry stops the ranking. *)






(** When every batch fails the refresh leaves the cache as it was. *)
Lemma refresh_batches_all_failed env :
  (forall i texts, exists e, batchEmbedContents env i texts = inl e) ->
  forall batches i cache, (refresh_batches env batches i cache).1 = cache.
Proof.
  intros Hdown. induction batches as [|b batches IH]; intros i cache; [reflexivity|].
  cbn [refresh_batches].
  destruct (Hdown i (map FileContent.text b)) as [e He].
  rewrite (refresh_batch_failed env i b cache e He).
  specialize (IH (S i) cache).
  destruct (refresh_batches env batches (S i) cache) as [c' t']. exact IH.
Qed.

Lemma first_absent (cache : Cache) (files : list jsstring) f :
  In f files -> cache !! f = None ->
  exists files1 g files2,
    files = files1 ++ g :: files2 /\
    Forall (fun h => is_Some (cache !! h)) files1 /\
    cache !! g = None.
Proof.
  induction files as [|h files IH]; intros Hin Hf; [destruct Hin|].
  destruct (cache !! h) as [entry|] eqn:Hh.
  - destruct Hin as [->|Hin]; [congruence|].
    destruct (IH Hin Hf) as (l1 & g & l2 & -> & Hl1 & Hg).
    exists (h :: l1), g, l2. split; [reflexivity|]. split; [|exact Hg].
    constructor; [rewrite Hh; eauto|exact Hl1].
  - exists [], h, files. split; [reflexivity|]. split; [constructor|exact Hh].
Qed.

(** The defect behind C1 in general: the remote model is down, and a file of
    the workspace has no entry in the cache with which the refresh starts.
    Although the cache is saved and the query embedded, the call throws a
    [TypeError] instead of ranking the files that have an entry. *)
Lemma failed_batches_abort_ranking env query this files fileContents f queryEmbedding :
  falsy (apiKey this) = false ->
  findFiles env = inr files ->
  fileContents_of env files = inr fileContents ->
  (forall i texts, exists e, batchEmbedContents env i texts = inl e) ->
  (forall cache, (save_outcome env cache).1 = inr tt) ->
  embedContent env query = inr queryEmbedding ->
  In f files ->
  codehashCache (state_after_load env this) !! f = None ->
  result_of (findClosestDartFiles env query this)
  = inl (ErrorObject "TypeError"
           "Cannot read properties of undefined (reading 'embedding')").
Proof.
  intros Hkey Hfiles Hfcs Hdown Hsave Hquery Hin Hf.
  destruct (findClosestDartFiles_eq env query this Hkey) as (tl & _ & ->).
  set (this0 := state_after_load env this) in *.
  pose proof (refreshAndRank_eq env query this0 files fileContents Hfiles Hfcs) as Heq.
  cbv zeta in Heq. rewrite (refresh_batches_all_failed env Hdown) in Heq.
  rewrite set_cache_same in Heq.
  destruct (first_absent _ files f Hin Hf) as (l1 & g & l2 & -> & Hl1 & Hg).
  assert (Hp : exists t,
             persistAndRank env query (l1 ++ g :: l2) fileContents this0
             = (inl (ErrorObject "TypeError"
                       "Cannot read properties of undefined (reading 'embedding')"),
                this0, t)).
  { unfold persistAndRank. unfold bind at 1. rewrite saveCache_eq.
    pose proof (Hsave (codehashCache this0)) as Hs.
    destruct (save_outcome env (codehashCache this0)) as [rs ts]. cbn [fst snd] in *.
    subst rs. rewrite bind_emit. unfold bind at 1. rewrite Hquery. cbn [lift].
    unfold ret at 1. unfold bind at 1.
    rewrite (computeDistances_absent l1 g l2 queryEmbedding this0 Hl1 Hg).
    eexists. reflexivity. }
  destruct Hp as [t Hp]. rewrite Hp in Heq.
  rewrite (try_catch_rethrow_eq _ _ _ _ _ Heq). reflexivity.
Qed.

(** ** The theorems at sample inputs *)

Lemma two_file_repo_valid (q : list R) :
  length q = 2%nat ->
  valid_candidates (codehashCache two_file_repo) q [lit "/w/a.dart"; lit "/w/b.dart"].
Proof.
  intros Hq. constructor; [|constructor; [|constructor]].
  - eexists _, [0; 1]. split; [reflexivity|]. split; [reflexivity|]. rewrite Hq. reflexivity.
  - eexists _, [1; 0]. split; [reflexivity|]. split; [reflexivity|]. rewrite Hq. reflexivity.
Qed.

Lemma missing_api_key_fails_before_io_witness :
  falsy (apiKey no_key_repo) = true /\
  result_of (findClosestDartFiles sample_env (lit "entry point") no_key_repo)
  = inl api_token_error.
Proof.
  split; [reflexivity|].
  exact (proj1 (missing_api_key_fails_before_io sample_env (lit "entry point")
                  no_key_repo eq_refl)).
Defined.

Lemma ranking_sorted_top5_witness :
  exists distances,
    computeDistances [lit "/w/a.dart"; lit "/w/b.dart"] {| values := map Num [1; 0] |}
                     two_file_repo
    = (inr distances, two_file_repo, []) /\
    StronglySorted dist_le (rank distances) /\
    (length (rank distances) <= 2)%nat.
Proof.
  destruct (ranking_sorted_top5 two_file_repo [1; 0] [lit "/w/a.dart"; lit "/w/b.dart"]
              (two_file_repo_valid [1; 0] eq_refl))
    as (distances & Hd & _ & Hsorted & _ & Hlen).
  exists distances. split; [exact Hd|]. split; [exact Hsorted|exact Hlen].
Defined.

Lemma ranking_exact_match_first_witness :
  exists distances,
    computeDistances [lit "/w/a.dart"; lit "/w/b.dart"] {| values := map Num [1; 0] |}
                     two_file_repo
    = (inr distances, two_file_repo, []) /\
    head (rank distances) = Some {| file := lit "/w/b.dart"; distance := Num 0 |}.
Proof.
  destruct (ranking_exact_match_first two_file_repo [1; 0] [lit "/w/a.dart"]
              (lit "/w/b.dart") []) as (distances & Hd & _ & Hhead).
  - exact (two_file_repo_valid [1; 0] eq_refl).
  - reflexivity.
  - constructor; [|constructor].
    unfold distance_of. cbn [distance values].
    change (vector_of (codehashCache two_file_repo) (lit "/w/a.dart"))
      with (map Num [0; 1]).
    rewrite euclideanDistance_l2 by (cbn; lia).
    intros H. injection H as H. apply (l2_zero [0; 1] [1; 0] eq_refl) in H.
    injection H as H _. lra.
  - exists distances. split; [exact Hd|exact Hhead].
Defined.

Lemma sample_env_aligned_lengths : aligned_lengths sample_env.
Proof.
  intros i texts embeddings H. cbn in H. injection H as <-. apply length_map.
Qed.

Lemma second_call_embeds_nothing_witness :
  Forall (fun e => is_batch_request e = false)
         (trace_of (findClosestDartFiles sample_env (lit "widgets")
                      (state_of (findClosestDartFiles sample_env (lit "entry point")
                                                      fresh_repo)))).
Proof.
  apply (second_call_embeds_nothing sample_env sample_env
           (lit "entry point") (lit "widgets") fresh_repo).
  - exact sample_env_aligned_lengths.
  - repeat split.
  - vm_compute. repeat constructor.
Defined.

Lemma written_entries_pair_fingerprint_with_embedding_witness :
  let embeds := fun (_ : jsstring) (e : ContentEmbedding) => values e = [Num 1; Num 0] in
  let p := lit "/w/lib/main.dart" in
  let text := render (lit "main.dart") (lit "lib/main.dart") (lit "void main() {}") in
  let entry := {| codehash := computeCodehash text;
                  embedding := {| values := [Num 1; Num 0] |} |} in
  codehashCache (state_after_load sample_env fresh_repo) !! p = Some entry \/
  exists documentText,
    openTextDocument sample_env p = inr documentText /\
    let text := render (basename p) (asRelativePath sample_env p) documentText in
    codehash entry = computeCodehash text /\
    embeds text (embedding entry).
Proof.
  intros embeds p text entry.
  apply (written_entries_pair_fingerprint_with_embedding embeds sample_env
           (lit "entry point") fresh_repo).
  - intros i texts embeddings H. cbn in H. injection H as <-.
    apply Forall2_fmap_r, Forall_Forall2_diag, Forall_true. reflexivity.
  - vm_compute. reflexivity.
Defined.

(** * Further properties of the retrieval engine *)

(** ** The batches *)

Lemma slices_lookup {A} (n : nat) :
  (0 < n)%nat ->
  forall rounds (l : list A) i b,
    (length l <= rounds)%nat ->
    slices rounds n l !! i = Some b ->
    b = take n (drop (i * n) l) /\ (i * n < length l)%nat.
Proof.
  intros Hn. induction rounds as [|r IH]; intros l i b Hl Hb; [discriminate|].
  destruct l as [|x l]; [discriminate|].
  cbn [slices] in Hb. destruct i as [|j].
  - cbn in Hb. injection Hb as <-. split; [reflexivity|cbn; lia].
  - cbn [lookup list_lookup] in Hb.
    apply IH in Hb; [|rewrite length_drop; cbn [length] in *; lia].
    destruct Hb as [-> Hj]. rewrite length_drop in Hj.
    rewrite drop_drop. split; [f_equal; f_equal; lia|lia].
Qed.

Lemma slices_length {A} (n : nat) :
  (0 < n)%nat ->
  forall rounds (l : list A),
    (length l <= rounds)%nat ->
    length (slices rounds n l) = ((length l + n - 1) / n)%nat.
Proof.
  intros Hn. induction rounds as [|r IH]; intros l Hl.
  - destruct l; [|cbn in Hl; lia]. cbn.
    symmetry. apply Nat.div_small. lia.
  - destruct l as [|x l].
    + cbn. symmetry. apply Nat.div_small. lia.
    + cbn [slices length]. rewrite IH by (rewrite length_drop; cbn [length] in *; lia).
      rewrite length_drop. cbn [length].
      destruct (le_lt_dec (S (length l)) n) as [Hle|Hgt].
      * replace (S (length l) - n)%nat with 0%nat by lia.
        replace ((0 + n - 1) / n)%nat with 0%nat
          by (symmetry; apply Nat.div_small; lia).
        apply (Nat.div_unique _ _ _ (length l)); lia.
      * replace (S (length l) + n - 1)%nat
          with ((S (length l) - n + n - 1) + 1 * n)%nat by lia.
        rewrite Nat.div_add by lia. lia.
Qed.

(** X1: the batches are the consecutive slices of 100 of the list: batch [i]
    is [l.slice(100 i, 100 i + 100)].  Together they give back the list in
    its order, there are ceil(n / 100) of them, none is empty, none has more
    than 100 elements and all but the last have exactly 100. *)
Theorem make_batches_slices {A} (l : list A) :
  concat (make_batches l) = l /\
  length (make_batches l) = ((length l + 99) / 100)%nat /\
  forall i b,
    make_batches l !! i = Some b ->
    b = take 100 (drop (100 * i) l) /\
    (0 < length b <= 100)%nat /\
    ((S i < length (make_batches l))%nat -> length b = 100%nat).
Proof.
  split; [apply make_batches_concat|]. split.
  { unfold make_batches. rewrite slices_length by lia. f_equal. lia. }
  intros i b Hb.
  destruct (slices_lookup 100 ltac:(lia) (length l) l i b (le_n _) Hb) as [-> Hi].
  rewrite Nat.mul_comm. split; [reflexivity|].
  rewrite length_take, length_drop. split; [lia|].
  intros Hnext. apply lookup_lt_is_Some_2 in Hnext. destruct Hnext as [b' Hb'].
  destruct (slices_lookup 100 ltac:(lia) (length l) l (S i) b' (le_n _) Hb') as [_ Hi'].
  lia.
Qed.

(** ** Display names *)

Lemma split_pop_spec (s : jsstring) :
  forall cur,
    ~ In 47%Z cur ->
    ~ In 47%Z (split_pop s cur) /\
    exists d, cur ++ s = d ++ split_pop s cur /\ (d = [] \/ exists d', d = d' ++ [47%Z]).
Proof.
  induction s as [|c s IH]; intros cur Hcur.
  - cbn. split; [exact Hcur|]. exists []. rewrite app_nil_r. auto.
  - cbn [split_pop]. destruct (Z.eqb_spec c 47) as [->|Hc].
    + destruct (IH [] (fun H => H)) as [Hno (d & Hd & Hshape)].
      split; [exact Hno|]. exists (cur ++ 47%Z :: d). split.
      * cbn [app] in Hd. rewrite <- app_assoc. cbn [app]. do 2 f_equal. exact Hd.
      * right. destruct Hshape as [->|[d' ->]].
        -- exists cur. reflexivity.
        -- exists (cur ++ 47%Z :: d'). rewrite <- app_assoc. reflexivity.
    + destruct (IH (cur ++ [c])) as [Hno (d & Hd & Hshape)].
      { intros H. apply in_app_or in H. destruct H as [H|[H|[]]]; [auto|congruence]. }
      split; [exact Hno|]. exists d. split; [|exact Hshape].
      rewrite <- Hd, <- app_assoc. reflexivity.
Qed.

Lemma split_pop_no_slash (n : jsstring) :
  ~ In 47%Z n -> forall cur, split_pop n cur = cur ++ n.
Proof.
  induction n as [|c n IH]; intros Hn cur; cbn [split_pop].
  - rewrite app_nil_r. reflexivity.
  - destruct (Z.eqb_spec c 47) as [->|Hc]; [exfalso; apply Hn; left; reflexivity|].
    rewrite IH by (intros H; apply Hn; right; exact H).
    rewrite <- app_assoc. reflexivity.
Qed.

Lemma split_pop_after_slash (d n : jsstring) :
  forall cur, split_pop (d ++ 47%Z :: n) cur = split_pop n [].
Proof.
  induction d as [|c d IH]; intros cur; cbn [app split_pop].
  - reflexivity.
  - destruct (c =? 47)%Z; apply IH.
Qed.

(** X2: the display name of a path, [path.split('/').pop()], is the part
    after its last slash: it holds no slash, the path is the name itself or
    ends with a slash followed by the name, and a name without a slash is
    found again behind any directory. *)
Theorem basename_last_segment (p : jsstring) :
  ~ In 47%Z (basename p) /\
  (p = basename p \/ exists d, p = d ++ 47%Z :: basename p) /\
  (forall d n, ~ In 47%Z n -> basename (d ++ 47%Z :: n) = n).
Proof.
  unfold basename. destruct (split_pop_spec p [] (fun H => H)) as [Hno (d & Hd & Hshape)].
  split; [exact Hno|]. split.
  - cbn [app] in Hd. destruct Hshape as [->|[d' ->]].
    + left. exact Hd.
    + right. exists d'. rewrite <- app_assoc in Hd. exact Hd.
  - intros d0 n Hn. rewrite split_pop_after_slash. apply split_pop_no_slash, Hn.
Qed.

(** ** The cache file of a workspace *)

(** X3: the name of the cache file is the fingerprint of the path of the
    workspace folder, and the fingerprint ignores whitespace: two workspace
    folders whose paths differ only in whitespace have the same cache file
    (under one temporary directory). *)
Theorem cacheFilePath_ignores_whitespace (env1 env2 : Env) (this1 this2 : Repo)
    (w1 w2 : jsstring) :
  workspaceFolder env1 = Some w1 ->
  workspaceFolder env2 = Some w2 ->
  tmpdir env1 = tmpdir env2 ->
  path_join env1 = path_join env2 ->
  ws_variant w1 w2 ->
  exists p,
    cacheFilePath env1 this1 = (inr p, this1, []) /\
    cacheFilePath env2 this2 = (inr p, this2, []).
Proof.
  intros H1 H2 Ht Hj Hw. unfold cacheFilePath. rewrite H1, H2, Ht, Hj.
  unfold computeCodehash. rewrite (remove_whitespace_variant w1 w2 Hw).
  eexists. split; reflexivity.
Qed.

Lemma cacheFilePath_ignores_whitespace_witness :
  exists p,
    cacheFilePath (with_workspaceFolder (Some (lit "/home/me/my app")) sample_env) fresh_repo
    = (inr p, fresh_repo, []) /\
    cacheFilePath (with_workspaceFolder (Some (lit "/home/me/myapp")) sample_env) stale_repo
    = (inr p, stale_repo, []).
Proof.
  apply (cacheFilePath_ignores_whitespace
           (with_workspaceFolder (Some (lit "/home/me/my app")) sample_env)
           (with_workspaceFolder (Some (lit "/home/me/myapp")) sample_env)
           fresh_repo stale_repo (lit "/home/me/my app") (lit "/home/me/myapp")).
  - reflexivity.
  - reflexivity.
  - reflexivity.
  - reflexivity.
  - exact (ws_variant_remove (lit "/home/me/my app")).
Defined.

(** ** The distance on vectors of one dimension *)

Lemma sq_diff_sum_cons x y a b :
  sq_diff_sum (x :: a) (y :: b) = (x - y) ^ 2 + sq_diff_sum a b.
Proof. reflexivity. Qed.

Lemma sq_diff_sum_sym a b : sq_diff_sum a b = sq_diff_sum b a.
Proof.
  revert b; induction a as [|x a IH]; intros [|y b]; try reflexivity.
  rewrite !sq_diff_sum_cons, IH. ring.
Qed.

(** X4: on vectors of one dimension [euclideanDistance] does not depend on
    the order of its arguments, gives 0 for a vector and itself, and is
    never negative.  (Of the laws of a metric these are the ones that do
    not depend on exact arithmetic.) *)
Theorem euclideanDistance_symmetric (a b : list R) :
  length a = length b ->
  euclideanDistance (map Num a) (map Num b) = euclideanDistance (map Num b) (map Num a) /\
  euclideanDistance (map Num a) (map Num a) = Num 0 /\
  exists d, euclideanDistance (map Num a) (map Num b) = Num d /\ 0 <= d.
Proof.
  intros Hab.
  rewrite !euclideanDistance_l2 by lia.
  split; [unfold l2; rewrite (sq_diff_sum_sym a b); reflexivity|].
  split; [rewrite l2_refl; reflexivity|].
  exists (l2 a b). split; [reflexivity|apply l2_nonneg].
Qed.

Lemma euclideanDistance_symmetric_witness :
  euclideanDistance (map Num [1; 0]) (map Num [0; 1])
  = euclideanDistance (map Num [0; 1]) (map Num [1; 0]).
Proof.
  exact (proj1 (euclideanDistance_symmetric [1; 0] [0; 1] eq_refl)).
Defined.

(** ** The sort keeps the order of ties *)

Lemma same_distance_not_both v x y :
  is_positive (comparator x y) = true ->
  same_distance v x = true -> same_distance v y = true -> False.
Proof.
  unfold is_positive, comparator, js_sub, same_distance.
  destruct (distance x) as [a|], (distance y) as [b|], v as [r|]; try discriminate.
  destruct (Rlt_dec 0 (a - b)); [|discriminate].
  destruct (Req_dec_T a r); [|discriminate].
  destruct (Req_dec_T b r); [|discriminate].
  intros _ _ _. lra.
Qed.

Lemma sort_insert_filter v x l :
  List.filter (same_distance v) (sort_insert comparator x l)
  = List.filter (same_distance v) (x :: l).
Proof.
  induction l as [|y l IH]; [reflexivity|].
  cbn [sort_insert]. destruct (is_positive (comparator x y)) eqn:Hpos; [|reflexivity].
  cbn [List.filter] in *. rewrite IH.
  destruct (same_distance v x) eqn:Hx, (same_distance v y) eqn:Hy; try reflexivity.
  exfalso. exact (same_distance_not_both v x y Hpos Hx Hy).
Qed.

Lemma array_sort_filter (l : list Distance) (v : number) :
  List.filter (same_distance v) (array_sort comparator l)
  = List.filter (same_distance v) l.
Proof.
  induction l as [|x l IH]; [reflexivity|].
  unfold array_sort in *. cbn [foldr]. rewrite sort_insert_filter.
  cbn [List.filter]. rewrite IH. reflexivity.
Qed.

Lemma same_distance_own d x : distance d = Num x -> same_distance (Num x) d = true.
Proof.
  intros H. unfold same_distance. rewrite H.
  destruct (Req_dec_T x x); [reflexivity|contradiction].
Qed.

(** Two sorted lists with the same records of every distance, in the same
    order, are equal. *)
Lemma sorted_ties_unique (l1 : list Distance) :
  forall l2,
    Forall has_real_distance l1 -> Forall has_real_distance l2 ->
    StronglySorted dist_le l1 -> StronglySorted dist_le l2 ->
    (forall v, List.filter (same_distance v) l1 = List.filter (same_distance v) l2) ->
    l1 = l2.
Proof.
  induction l1 as [|x l1 IH]; intros l2 Hr1 Hr2 Hs1 Hs2 Hf.
  { destruct l2 as [|y l2]; [reflexivity|].
    inversion Hr2 as [|? ? [b Hb] _]; subst.
    specialize (Hf (Num b)). cbn [List.filter] in Hf.
    rewrite (same_distance_own y b Hb) in Hf. discriminate. }
  inversion Hr1 as [|? ? [a Ha] Hr1']; subst.
  destruct l2 as [|y l2].
  { specialize (Hf (Num a)). cbn [List.filter] in Hf.
    rewrite (same_distance_own x a Ha) in Hf. discriminate. }
  inversion Hr2 as [|? ? [b Hb] Hr2']; subst.
  inversion Hs1 as [|? ? Hs1' Hx]; subst.
  inversion Hs2 as [|? ? Hs2' Hy]; subst.
  assert (Hab : a <= b).
  { assert (Hin : In y (List.filter (same_distance (Num b)) (x :: l1))).
    { rewrite (Hf (Num b)). cbn [List.filter].
      rewrite (same_distance_own y b Hb). left. reflexivity. }
    apply List.filter_In in Hin. destruct Hin as [[->|Hin] _].
    - rewrite Ha in Hb. injection Hb as ->. lra.
    - rewrite List.Forall_forall in Hx. specialize (Hx y Hin).
      unfold dist_le in Hx. rewrite Ha, Hb in Hx. exact Hx. }
  assert (Hba : b <= a).
  { assert (Hin : In x (List.filter (same_distance (Num a)) (y :: l2))).
    { rewrite <- (Hf (Num a)). cbn [List.filter].
      rewrite (same_distance_own x a Ha). left. reflexivity. }
    apply List.filter_In in Hin. destruct Hin as [[->|Hin] _].
    - rewrite Ha in Hb. injection Hb as ->. lra.
    - rewrite List.Forall_forall in Hy. specialize (Hy x Hin).
      unfold dist_le in Hy. rewrite Ha, Hb in Hy. exact Hy. }
  assert (b = a) as -> by lra.
  assert (x = y) as <-.
  { specialize (Hf (Num a)). cbn [List.filter] in Hf.
    rewrite (same_distance_own x a Ha), (same_distance_own y a Hb) in Hf.
    injection Hf as Hxy _. exact Hxy. }
  f_equal. apply IH; try assumption.
  intros v. specialize (Hf v). cbn [List.filter] in Hf.
  destruct (same_distance v x); [injection Hf as Hf|]; exact Hf.
Qed.

(** X5: when every distance is a number, [distances.sort] keeps the files
    of equal distance in the order of the enumeration: for every distance,
    the records with that distance are in the sorted array in the order
    they had before.  With the order by distance this fixes the result:
    every arrangement of the records that is sorted by distance and keeps
    the order of ties is the sorted array.  (With a [NaN] among the
    distances the comparator is inconsistent, and the language leaves the
    order to the implementation.) *)
Theorem array_sort_stable (l : list Distance) :
  Forall has_real_distance l ->
  (forall v, List.filter (same_distance v) (array_sort comparator l)
             = List.filter (same_distance v) l) /\
  (forall l', StronglySorted dist_le l' ->
              (forall v, List.filter (same_distance v) l'
                         = List.filter (same_distance v) l) ->
              l' = array_sort comparator l).
Proof.
  intros Hreal. split; [intros v; apply array_sort_filter|].
  intros l' Hsorted Hties.
  apply sorted_ties_unique.
  - rewrite List.Forall_forall. intros y Hy.
    destruct (distance y) as [b|] eqn:Hb; [exists b; exact Hb|].
    assert (Hin : In y (List.filter (same_distance NaN) l)).
    { rewrite <- Hties. apply List.filter_In. split; [exact Hy|].
      unfold same_distance. rewrite Hb. reflexivity. }
    apply List.filter_In in Hin. destruct Hin as [Hin _].
    rewrite List.Forall_forall in Hreal. destruct (Hreal y Hin) as [c Hc].
    rewrite Hc in Hb. discriminate.
  - eapply Permutation_Forall; [symmetry; apply array_sort_perm|exact Hreal].
  - exact Hsorted.
  - apply array_sort_sorted, Hreal.
  - intros v. rewrite Hties, array_sort_filter. reflexivity.
Qed.

Lemma array_sort_stable_witness :
  let l := [{| file := lit "/a.dart"; distance := Num 1 |};
            {| file := lit "/b.dart"; distance := Num 0 |};
            {| file := lit "/c.dart"; distance := Num 1 |}] in
  List.filter (same_distance (Num 1)) (array_sort comparator l)
  = List.filter (same_distance (Num 1)) l.
Proof.
  intros l.
  refine (proj1 (array_sort_stable l _) (Num 1)).
  repeat constructor; eexists; reflexivity.
Defined.

(** ** The requests of a call *)

Lemma batch_requests_app t1 t2 :
  batch_requests (t1 ++ t2) = batch_requests t1 ++ batch_requests t2.
Proof. unfold batch_requests. apply flat_map_app. Qed.

Lemma batch_requests_none t :
  Forall (fun e => is_batch_request e = false) t -> batch_requests t = [].
Proof.
  induction 1 as [|e t He _ IH]; [reflexivity|].
  unfold batch_requests in *. cbn [flat_map]. rewrite IH.
  destruct e; try reflexivity. discriminate.
Qed.





(** ** The entries a call leaves alone *)

Lemma store_embeddings_frame batch p :
  (forall fc, In fc batch -> FileContent.path fc <> p) ->
  forall embeddings index cache,
    (store_embeddings batch embeddings index cache).1 !! p = cache !! p.
Proof.
  intros Hp. induction embeddings as [|emb embs IH]; intros index cache; [reflexivity|].
  cbn [store_embeddings]. destruct (batch !! index) as [fc|] eqn:Hfc; [|reflexivity].
  rewrite IH. apply lookup_insert_ne, Hp.
  apply list_elem_of_In, list_elem_of_lookup. eauto.
Qed.

Lemma store_embeddings_keeps batch p :
  forall embeddings index cache,
    is_Some (cache !! p) ->
    is_Some ((store_embeddings batch embeddings index cache).1 !! p).
Proof.
  induction embeddings as [|emb embs IH]; intros index cache Hp; [exact Hp|].
  cbn [store_embeddings]. destruct (batch !! index) as [fc|] eqn:Hfc; [|exact Hp].
  apply IH. destruct (decide (FileContent.path fc = p)) as [->|Hne].
  - rewrite lookup_insert_eq. eauto.
  - rewrite lookup_insert_ne by exact Hne. exact Hp.
Qed.

Lemma refresh_batches_frame env p :
  forall batches i cache,
    (forall fc, In fc (concat batches) -> FileContent.path fc <> p) ->
    (refresh_batches env batches i cache).1 !! p = cache !! p.
Proof.
  induction batches as [|b batches IH]; intros i cache Hp; [reflexivity|].
  cbn [refresh_batches concat] in *.
  assert (Hb : (refresh_batch env i b cache).1 !! p = cache !! p).
  { unfold refresh_batch.
    destruct (batchEmbedContents env i (map FileContent.text b)) as [e|embs];
      [reflexivity|].
    pose proof (store_embeddings_frame b p
                  (fun fc H => Hp fc (in_or_app _ _ _ (or_introl H))) embs 0%nat cache) as Hs.
    destruct (store_embeddings b embs 0 cache) as [c [e|]]; exact Hs. }
  destruct (refresh_batch env i b cache) as [c t]. cbn [fst] in Hb.
  specialize (IH (S i) c (fun fc H => Hp fc (in_or_app _ _ _ (or_intror H)))).
  destruct (refresh_batches env batches (S i) c) as [c' t']. cbn [fst] in *.
  rewrite IH. exact Hb.
Qed.

Lemma refresh_batches_keeps env p :
  forall batches i cache,
    is_Some (cache !! p) ->
    is_Some ((refresh_batches env batches i cache).1 !! p).
Proof.
  induction batches as [|b batches IH]; intros i cache Hp; [exact Hp|].
  cbn [refresh_batches].
  assert (Hb : is_Some ((refresh_batch env i b cache).1 !! p)).
  { unfold refresh_batch.
    destruct (batchEmbedContents env i (map FileContent.text b)) as [e|embs];
      [exact Hp|].
    pose proof (store_embeddings_keeps b p embs 0%nat cache Hp) as Hs.
    destruct (store_embeddings b embs 0 cache) as [c [e|]]; exact Hs. }
  destruct (refresh_batch env i b cache) as [c t]. cbn [fst] in Hb.
  specialize (IH (S i) c Hb).
  destruct (refresh_batches env batches (S i) c) as [c' t']. exact IH.
Qed.

Lemma filesToUpdate_In cache fileContents fc :
  In fc (filesToUpdate cache fileContents) -> In fc fileContents.
Proof. unfold filesToUpdate. rewrite filter_In. tauto. Qed.

(** X7: a call changes the entries of the files that the diffing step
    selected and no other: the entry of every other path, be it the path of
    an unchanged file or of a file that is no longer in the workspace, is
    after the call what it was when the refresh started. *)
Theorem call_changes_stale_entries_only (env : Env) (query : jsstring) (this : Repo)
    (files : list jsstring) (fileContents : list FileContent.t) (p : jsstring) :
  falsy (apiKey this) = false ->
  findFiles env = inr files ->
  fileContents_of env files = inr fileContents ->
  (forall fc, In fc (filesToUpdate (codehashCache (state_after_load env this)) fileContents) ->
              FileContent.path fc <> p) ->
  codehashCache (state_of (findClosestDartFiles env query this)) !! p
  = codehashCache (state_after_load env this) !! p.
Proof.
  intros Hkey Hfiles Hfcs Hp.
  destruct (call_refresh env query this files fileContents Hkey Hfiles Hfcs)
    as (tl & r & t & _ & _ & ->).
  cbv zeta. unfold state_of. cbn [fst snd set_cache codehashCache].
  apply refresh_batches_frame. rewrite make_batches_concat. exact Hp.
Qed.

Lemma call_changes_stale_entries_only_witness :
  codehashCache (state_of (findClosestDartFiles sample_env (lit "entry point") two_file_repo))
    !! lit "/w/a.dart"
  = codehashCache (state_after_load sample_env two_file_repo) !! lit "/w/a.dart".
Proof.
  apply (call_changes_stale_entries_only sample_env (lit "entry point") two_file_repo
           [lit "/w/lib/main.dart"]
           [fileContent_of sample_env (lit "/w/lib/main.dart") (lit "void main() {}")]).
  - reflexivity.
  - reflexivity.
  - reflexivity.
  - intros fc Hfc. apply filesToUpdate_In in Hfc. destruct Hfc as [<-|[]].
    unfold fileContent_of. cbn [FileContent.path].
    intros H. apply (f_equal length) in H. vm_compute in H. discriminate H.
Defined.

(** X8: a call never removes an entry: a path that has an entry in the
    cache in memory when the call starts has one when the call ends,
    whether the file is still in the workspace or not and however the call
    ends. *)
Theorem call_never_evicts (env : Env) (query : jsstring) (this : Repo) (p : jsstring) :
  is_Some (codehashCache this !! p) ->
  is_Some (codehashCache (state_of (findClosestDartFiles env query this)) !! p).
Proof.
  intros [entry Hp].
  pose proof (state_after_load_lookup env this p entry Hp) as Hp0.
  destruct (falsy (apiKey this)) eqn:Hkey.
  { rewrite findClosestDartFiles_no_key by exact Hkey. cbn. eauto. }
  destruct (findFiles env) as [e|files] eqn:Hfiles.
  { destruct (call_no_listing env query this e Hkey Hfiles) as (tl & _ & ->).
    cbn. eauto. }
  destruct (fileContents_of env files) as [e|fcs] eqn:Hfcs.
  { destruct (call_no_document env query this files e Hkey Hfiles Hfcs) as (tl & _ & ->).
    cbn. eauto. }
  destruct (call_refresh env query this files fcs Hkey Hfiles Hfcs)
    as (tl & r & t & _ & _ & ->).
  cbv zeta. unfold state_of. cbn [fst snd set_cache codehashCache].
  apply refresh_batches_keeps. eauto.
Qed.

Lemma call_never_evicts_witness :
  is_Some (codehashCache
             (state_of (findClosestDartFiles sample_env (lit "entry point") two_file_repo))
             !! lit "/w/b.dart").
Proof.
  apply (call_never_evicts sample_env (lit "entry point") two_file_repo (lit "/w/b.dart")).
  eexists. reflexivity.
Defined.

(** ** The call, stage by stage *)

Lemma findClosestDartFiles_exact env query this :
  falsy (apiKey this) = false ->
  findClosestDartFiles env query this =
  (let '(r, this', t) :=
     try_catch (refreshAndRank env query) rethrow (state_after_load env this) in
   (r, this', load_trace env this ++ t)).
Proof.
  intros H. unfold findClosestDartFiles, state_after_load, load_trace.
  unfold try_catch at 1. rewrite H.
  destruct (Nat.eqb (size (codehashCache this)) 0).
  - destruct (loadCache_eq env this) as (tl & Hl & _).
    unfold bind. rewrite Hl. unfold trace_of. cbn [snd]. unfold try_catch.
    destruct (refreshAndRank env query _) as [[[e|a] s] t]; cbn;
      rewrite ?app_assoc; reflexivity.
  - rewrite bind_ret. unfold try_catch.
    destruct (refreshAndRank env query this) as [[[e|a] s] t]; reflexivity.
Qed.

Lemma call_exact env query this files fileContents r t :
  falsy (apiKey this) = false ->
  findFiles env = inr files ->
  fileContents_of env files = inr fileContents ->
  (let this0 := state_after_load env this in
   let cache := codehashCache this0 in
   let rb := refresh_batches env (make_batches (filesToUpdate cache fileContents)) 0 cache in
   persistAndRank env query files fileContents (set_cache rb.1 this0)
   = (r, set_cache rb.1 this0, t) ->
   findClosestDartFiles env query this
   = (r, set_cache rb.1 this0,
      load_trace env this ++ (FindFiles :: map OpenTextDocument files) ++ rb.2 ++ t
        ++ rethrow_trace r)).
Proof.
  intros Hkey Hfiles Hfcs. cbv zeta. intros Hp.
  rewrite (findClosestDartFiles_exact env query this Hkey).
  pose proof (refreshAndRank_eq env query (state_after_load env this)
                files fileContents Hfiles Hfcs) as Heq.
  cbv zeta in Heq. rewrite Hp in Heq.
  rewrite (try_catch_rethrow_eq _ _ _ _ _ Heq).
  unfold rethrow_trace. do 2 f_equal. cbn [app]. f_equal.
  rewrite <- !app_assoc. reflexivity.
Qed.

Lemma computeDistances_inr files queryEmbedding this ds this' t :
  computeDistances files queryEmbedding this = (inr ds, this', t) ->
  ds = map (distance_of (codehashCache this) queryEmbedding) files /\
  Forall (fun f => is_Some (codehashCache this !! f)) files.
Proof.
  revert ds this' t; induction files as [|f files IH]; intros ds this' t H.
  - cbn in H. injection H as <- _ _. split; [reflexivity|constructor].
  - unfold computeDistances in *. cbn [mapM] in H.
    unfold bind at 1 in H. rewrite bind_get_cache in H.
    destruct (codehashCache this !! f) as [entry|] eqn:Hf; [|discriminate].
    unfold ret at 1 in H. unfold bind at 1 in H.
    destruct (computeDistances_pure files queryEmbedding this) as [r Hr].
    unfold computeDistances in Hr. rewrite Hr in H.
    destruct r as [e|ds']; [discriminate|].
    destruct (IH ds' _ _ Hr) as [-> Hall].
    cbn in H. injection H as <- _ _. split.
    + cbn [map]. f_equal. unfold distance_of, vector_of. rewrite Hf. reflexivity.
    + constructor; [rewrite Hf; eauto|exact Hall].
Qed.

(** The end of the method when it returns: the query was embedded, every
    file had an entry, and the result is made of the closest files. *)
Lemma persistAndRank_inr env query files fileContents this result this' t :
  persistAndRank env query files fileContents this = (inr result, this', t) ->
  exists queryEmbedding,
    embedContent env query = inr queryEmbedding /\
    Forall (fun f => is_Some (codehashCache this !! f)) files /\
    let closest := rank (map (distance_of (codehashCache this) queryEmbedding) files) in
    result = trim (flat_map (text_of fileContents) closest) /\
    t = (save_outcome env (codehashCache this)).2 ++ ranking_trace query closest.
Proof.
  unfold persistAndRank. unfold bind at 1. rewrite saveCache_eq.
  destruct (save_outcome env (codehashCache this)) as [[e|[]] ts]; cbn [fst snd];
    [discriminate|].
  rewrite bind_emit. unfold bind at 1.
  destruct (embedContent env query) as [e|qe]; cbn [lift]; [discriminate|].
  unfold ret at 1. unfold bind at 1.
  destruct (computeDistances_pure files qe this) as [[e|ds] Hds]; rewrite Hds;
    [discriminate|].
  destruct (computeDistances_inr files qe this ds this [] Hds) as [-> Hall].
  cbn. intros H. injection H as <- _ <-.
  exists qe. split; [reflexivity|]. split; [exact Hall|]. split; reflexivity.
Qed.

(** The save comes first in the end of the method, whatever follows. *)
Lemma persistAndRank_saves_first env query files fileContents this :
  exists r t,
    persistAndRank env query files fileContents this
    = (r, this, (save_outcome env (codehashCache this)).2 ++ t).
Proof.
  unfold persistAndRank. unfold bind at 1. rewrite saveCache_eq.
  destruct (save_outcome env (codehashCache this)) as [[e|[]] ts]; cbn [fst snd].
  { exists (inl e), []. rewrite app_nil_r. reflexivity. }
  rewrite bind_emit. unfold bind at 1.
  destruct (embedContent env query) as [e|qe]; cbn [lift].
  { eexists _, _. reflexivity. }
  unfold ret at 1. unfold bind at 1.
  destruct (computeDistances_pure files qe this) as [[e|ds] ->].
  { eexists _, _. reflexivity. }
  cbn. eexists _, _. reflexivity.
Qed.

Lemma text_of_rendered env files fileContents f d :
  fileContents_of env files = inr fileContents ->
  In f files ->
  text_of fileContents {| file := f; distance := d |} = rendered env f.
Proof.
  intros H Hin. apply fileContents_of_spec in H. unfold text_of. cbn [file].
  induction H as [|g fc files fcs (doc & Hdoc & ->) _ IH]; [destruct Hin|].
  cbn [List.find]. unfold fileContent_of at 1. cbn [FileContent.path].
  destruct (decide (g = f)) as [->|Hne].
  - rewrite bool_decide_eq_true_2 by reflexivity.
    unfold rendered. rewrite Hdoc. reflexivity.
  - rewrite bool_decide_eq_false_2 by exact Hne.
    apply IH. destruct Hin as [Heq|Hin]; [contradiction|exact Hin].
Qed.

(** ** What a call returns *)

(** X9: a call that returns has enumerated the files and reports
    min(5, number of files) of them: the names posted are the display names
    of these files, in the order of the ranking, and the string returned is
    the concatenation, trimmed, of the texts rendered for them in that
    order.  The vectors need not be valid for this. *)
Theorem call_returns_texts_of_reported_files (env : Env) (query : jsstring)
    (this : Repo) (result : jsstring) :
  result_of (findClosestDartFiles env query this) = inr result ->
  exists files closest,
    findFiles env = inr files /\
    length closest = Nat.min 5 (length files) /\
    (forall f, In f closest -> In f files) /\
    In (PostMessage (map basename closest))
       (trace_of (findClosestDartFiles env query this)) /\
    result = trim (flat_map (rendered env) closest).
Proof.
  intros Hres.
  destruct (falsy (apiKey this)) eqn:Hkey.
  { rewrite findClosestDartFiles_no_key in Hres by exact Hkey. discriminate. }
  destruct (findFiles env) as [e|files] eqn:Hfiles.
  { destruct (call_no_listing env query this e Hkey Hfiles) as (tl & _ & Hc).
    rewrite Hc in Hres. discriminate. }
  destruct (fileContents_of env files) as [e|fcs] eqn:Hfcs.
  { destruct (call_no_document env query this files e Hkey Hfiles Hfcs) as (tl & _ & Hc).
    rewrite Hc in Hres. discriminate. }
  set (this0 := state_after_load env this) in *.
  set (rb := refresh_batches env
               (make_batches (filesToUpdate (codehashCache this0) fcs)) 0
               (codehashCache this0)) in *.
  destruct (persistAndRank_saves_first env query files fcs (set_cache rb.1 this0))
    as (r & t & Hp).
  pose proof (call_exact env query this files fcs r _ Hkey Hfiles Hfcs Hp) as Hc.
  rewrite Hc in Hres |- *. unfold result_of in Hres. cbn [fst] in Hres. subst r.
  destruct (persistAndRank_inr _ _ _ _ _ _ _ _ Hp) as (qe & _ & _ & Hr & Ht).
  cbv zeta in Hr, Ht.
  set (closest := rank (map (distance_of (codehashCache (set_cache rb.1 this0)) qe) files))
    in *.
  assert (Hsub : forall d, In d closest -> In (file d) files).
  { intros d Hd. apply rank_subset in Hd. apply in_map_iff in Hd.
    destruct Hd as (f & <- & Hf). exact Hf. }
  exists files, (map file closest). split; [reflexivity|]. split.
  { rewrite length_map. unfold closest. rewrite rank_length, length_map. reflexivity. }
  split.
  { intros f Hf. apply in_map_iff in Hf. destruct Hf as (d & <- & Hd). apply Hsub, Hd. }
  split.
  { unfold trace_of. cbn [snd]. rewrite Ht.
    apply in_or_app. right. apply in_or_app. right. apply in_or_app. right.
    apply in_or_app. left. apply in_or_app. right.
    unfold ranking_trace. right. left. rewrite map_map. reflexivity. }
  rewrite Hr. f_equal. rewrite flat_map_concat_map, (flat_map_concat_map (rendered env)).
  f_equal. rewrite map_map. apply map_ext_in. intros [f d] Hd.
  apply (text_of_rendered env files fcs f d Hfcs). apply (Hsub _ Hd).
Qed.

Lemma call_returns_texts_of_reported_files_witness :
  exists files closest,
    findFiles sample_env = inr files /\
    length closest = Nat.min 5 (length files) /\
    (forall f, In f closest -> In f files) /\
    In (PostMessage (map basename closest))
       (trace_of (findClosestDartFiles sample_env (lit "entry point") fresh_repo)) /\
    trim (rendered sample_env (lit "/w/lib/main.dart"))
    = trim (flat_map (rendered sample_env) closest).
Proof.
  apply (call_returns_texts_of_reported_files sample_env (lit "entry point") fresh_repo).
  vm_compute. reflexivity.
Defined.

Lemma persistAndRank_ok env query files fileContents this queryEmbedding :
  (save_outcome env (codehashCache this)).1 = inr tt ->
  embedContent env query = inr queryEmbedding ->
  Forall (fun f => is_Some (codehashCache this !! f)) files ->
  persistAndRank env query files fileContents this =
  (let closest := rank (map (distance_of (codehashCache this) queryEmbedding) files) in
   (inr (trim (flat_map (text_of fileContents) closest)), this,
    (save_outcome env (codehashCache this)).2 ++ ranking_trace query closest)).
Proof.
  intros Hsave Hq Hall. unfold persistAndRank. unfold bind at 1. rewrite saveCache_eq.
  destruct (save_outcome env (codehashCache this)) as [rs ts]. cbn [fst snd] in *.
  subst rs. rewrite bind_emit. unfold bind at 1. rewrite Hq. cbn [lift].
  unfold ret at 1. unfold bind at 1.
  rewrite (computeDistances_present files queryEmbedding this Hall).
  reflexivity.
Qed.

Lemma trim_nil : trim [] = [].
Proof. reflexivity. Qed.

(** X10: in a workspace without Dart files a call with a credential makes
    no batch request and, when the cache can be saved and the query
    embedded, returns the empty string and posts an empty list of names. *)
Theorem call_on_empty_workspace (env : Env) (query : jsstring) (this : Repo)
    (queryEmbedding : ContentEmbedding) :
  falsy (apiKey this) = false ->
  findFiles env = inr [] ->
  (forall cache, (save_outcome env cache).1 = inr tt) ->
  embedContent env query = inr queryEmbedding ->
  result_of (findClosestDartFiles env query this) = inr [] /\
  state_of (findClosestDartFiles env query this) = state_after_load env this /\
  batch_requests (trace_of (findClosestDartFiles env query this)) = [] /\
  In (PostMessage []) (trace_of (findClosestDartFiles env query this)).
Proof.
  intros Hkey Hfiles Hsave Hq.
  pose proof (persistAndRank_ok env query [] [] (state_after_load env this)
                queryEmbedding (Hsave _) Hq (List.Forall_nil _)) as Hp.
  cbv zeta in Hp. change (rank (map _ [])) with (@nil Distance) in Hp.
  cbn [flat_map] in Hp. rewrite trim_nil in Hp.
  pose proof (call_exact env query this [] [] (inr [])
                ((save_outcome env (codehashCache (state_after_load env this))).2
                   ++ ranking_trace query [])
                Hkey Hfiles eq_refl) as Hc.
  cbv zeta in Hc. cbn [filesToUpdate List.filter make_batches length slices
                       refresh_batches fst snd] in Hc.
  rewrite set_cache_same in Hc. specialize (Hc Hp). rewrite Hc.
  unfold result_of, state_of, trace_of. cbn [fst snd].
  split; [reflexivity|]. split; [reflexivity|]. split.
  - rewrite !batch_requests_app.
    assert (Hl : batch_requests (load_trace env this) = []).
    { unfold load_trace. destruct (Nat.eqb _ _); [|reflexivity].
      destruct (loadCache_eq env this) as (t & -> & Ht).
      apply batch_requests_none, Ht. }
    rewrite Hl. cbn [app].
    rewrite (batch_requests_none (save_outcome env _).2)
      by apply save_outcome_trace.
    reflexivity.
  - apply in_or_app. right. apply in_or_app. right. apply in_or_app. right.
    apply in_or_app. left. apply in_or_app. right. right. left. reflexivity.
Qed.

Lemma call_on_empty_workspace_witness :
  result_of (findClosestDartFiles (with_files (inr []) (fun _ => inl NonError) sample_env)
                                  (lit "entry point") fresh_repo)
  = inr [].
Proof.
  refine (proj1 (call_on_empty_workspace
                   (with_files (inr []) (fun _ => inl NonError) sample_env)
                   (lit "entry point") fresh_repo {| values := [Num 0; Num 1] |}
                   eq_refl eq_refl _ eq_refl)).
  intros cache. reflexivity.
Defined.

(** ** What a call saves, and when it reads the cache file *)



Lemma refresh_batches_events (P : event -> Prop) env :
  (forall texts, P (BatchEmbedContents texts)) -> (forall e, P (batch_failure e)) ->
  forall batches i cache, Forall P (refresh_batches env batches i cache).2.
Proof.
  intros Hb Hf. induction batches as [|b l IH]; intros i c; [constructor|].
  cbn [refresh_batches].
  assert (H : Forall P (refresh_batch env i b c).2).
  { unfold refresh_batch.
    destruct (batchEmbedContents env i _) as [e|embs]; [repeat constructor; auto|].
    destruct (store_embeddings b embs 0 c) as [c' [e|]]; repeat constructor; auto. }
  destruct (refresh_batch env i b c) as [c' tb]. cbn [snd] in H.
  specialize (IH (S i) c').
  destruct (refresh_batches env l (S i) c') as [c'' tl]. cbn [snd] in *.
  apply Forall_app. split; assumption.
Qed.



Lemma save_outcome_writes env cache p :
  cache_path env = Some p ->
  In (WriteFile p (JSON_stringify env cache)) (save_outcome env cache).2.
Proof.
  intros Hp. unfold save_outcome. rewrite Hp. cbn.
  destruct (writeFile env p _) as [[n m|]|[]]; left; reflexivity.
Qed.

(** ** A write of the cache file that fails *)








(** ** A cache that was saved is used *)

(** X13: on an object with an empty cache, a call that finds a cache file
    in which every file of the workspace has an entry with its current
    fingerprint makes no batch request, and leaves in memory the cache that
    it read. *)
Theorem call_with_fresh_cache_file (env : Env) (query : jsstring) (this : Repo)
    (files : list jsstring) (fileContents : list FileContent.t) (saved : Cache) :
  falsy (apiKey this) = false ->
  size (codehashCache this) = 0%nat ->
  loaded_cache env = Some saved ->
  findFiles env = inr files ->
  fileContents_of env files = inr fileContents ->
  (forall fc, In fc fileContents -> fresh saved fc) ->
  batch_requests (trace_of (findClosestDartFiles env query this)) = [] /\
  codehashCache (state_of (findClosestDartFiles env query this)) = saved.
Proof.
  intros Hkey Hsize Hload Hfiles Hfcs Hfresh.
  destruct (call_refresh env query this files fileContents Hkey Hfiles Hfcs)
    as (tl & r & t & Htl & Ht & ->).
  cbv zeta. unfold state_after_load. rewrite Hsize, Hload. cbn [Nat.eqb].
  cbn [set_cache codehashCache].
  rewrite (filesToUpdate_fresh saved fileContents Hfresh).
  cbn [make_batches length slices refresh_batches fst snd].
  unfold trace_of, state_of. cbn [fst snd set_cache codehashCache].
  split; [|reflexivity].
  rewrite !batch_requests_app, (batch_requests_none tl Htl), (batch_requests_none t Ht).
  cbn [app]. rewrite (batch_requests_none (FindFiles :: map OpenTextDocument files)).
  - reflexivity.
  - constructor; [reflexivity|]. apply Forall_map, Forall_true. reflexivity.
Qed.

Lemma call_with_fresh_cache_file_witness :
  batch_requests
    (trace_of (findClosestDartFiles (with_cache_file sample_cache sample_env)
                                    (lit "entry point") fresh_repo)) = [] /\
  codehashCache
    (state_of (findClosestDartFiles (with_cache_file sample_cache sample_env)
                                    (lit "entry point") fresh_repo)) = sample_cache.
Proof.
  apply (call_with_fresh_cache_file (with_cache_file sample_cache sample_env)
           (lit "entry point") fresh_repo [lit "/w/lib/main.dart"]
           [fileContent_of sample_env (lit "/w/lib/main.dart") (lit "void main() {}")]).
  - reflexivity.
  - reflexivity.
  - reflexivity.
  - reflexivity.
  - reflexivity.
  - intros fc [<-|[]]. apply fresh_iff. eexists. split.
    + unfold sample_cache, fileContent_of. cbn [FileContent.path].
      apply lookup_singleton_eq.
    + reflexivity.
Defined.

(** ** Edits that change whitespace only *)

Lemma ws_variant_all_whitespace t :
  remove_whitespace t = [] -> ws_variant [] t.
Proof.
  induction t as [|c t IH]; intros H; [constructor|].
  cbn in H. destruct (is_whitespace c) eqn:Hc; [|discriminate].
  apply wv_insert; [exact Hc|apply IH, H].
Qed.

Lemma ws_variant_of_remove s :
  forall t, remove_whitespace s = remove_whitespace t -> ws_variant s t.
Proof.
  induction s as [|c s IH]; intros t H.
  - apply ws_variant_all_whitespace. symmetry. exact H.
  - cbn in H. destruct (is_whitespace c) eqn:Hc; cbn in H.
    + apply wv_delete; [exact Hc|apply IH, H].
    + induction t as [|d t IHt]; [discriminate|].
      cbn in H. destruct (is_whitespace d) eqn:Hd; cbn in H.
      * apply wv_insert; [exact Hd|apply IHt, H].
      * injection H as <- H. apply wv_keep, IH, H.
Qed.

Lemma remove_whitespace_app s t :
  remove_whitespace (s ++ t) = remove_whitespace s ++ remove_whitespace t.
Proof. unfold remove_whitespace. apply List.filter_app. Qed.

Lemma codehash_render_variant name relativePath d1 d2 :
  ws_variant d1 d2 ->
  computeCodehash (render name relativePath d1)
  = computeCodehash (render name relativePath d2).
Proof.
  intros H. unfold computeCodehash, render.
  rewrite !remove_whitespace_app, (remove_whitespace_variant d1 d2 H). reflexivity.
Qed.

Lemma fileContents_of_variant env1 env2 files :
  documents_differ_in_whitespace env1 env2 ->
  (forall f, asRelativePath env2 f = asRelativePath env1 f) ->
  match fileContents_of env1 files, fileContents_of env2 files with
  | inr l1, inr l2 => Forall2 same_key l1 l2
  | inl _, inl _ => True
  | _, _ => False
  end.
Proof.
  intros Hdocs Hrel. induction files as [|f files IH]; [constructor|].
  cbn [fileContents_of]. specialize (Hdocs f).
  destruct (openTextDocument env1 f) as [e1|d1], (openTextDocument env2 f) as [e2|d2];
    try exact I; try contradiction.
  destruct (fileContents_of env1 files) as [e1|l1], (fileContents_of env2 files) as [e2|l2];
    try exact I; try contradiction.
  constructor; [|exact IH]. split; [reflexivity|].
  unfold fileContent_of. cbn [FileContent.codehash]. rewrite Hrel.
  apply codehash_render_variant, Hdocs.
Qed.

Lemma fresh_same_key cache a b : same_key a b -> fresh cache a -> fresh cache b.
Proof.
  intros [Hp Hc] Ha. apply fresh_iff in Ha. apply fresh_iff.
  rewrite <- Hp, <- Hc. exact Ha.
Qed.

(** After a call of which no batch failed every file of the workspace has
    an entry with its current fingerprint. *)
Lemma call_leaves_files_fresh env query this files fileContents :
  aligned_lengths env ->
  falsy (apiKey this) = false ->
  findFiles env = inr files ->
  fileContents_of env files = inr fileContents ->
  Forall (fun e => is_batch_failure e = false)
         (trace_of (findClosestDartFiles env query this)) ->
  forall fc, In fc fileContents ->
    fresh (codehashCache (state_of (findClosestDartFiles env query this))) fc.
Proof.
  intros Hal Hkey Hfiles Hfcs Hnofail.
  destruct (call_refresh env query this files fileContents Hkey Hfiles Hfcs)
    as (tl & r & t & _ & _ & Hcall).
  rewrite Hcall in Hnofail |- *. cbv zeta in *.
  unfold trace_of in Hnofail. unfold state_of. cbn [fst snd set_cache codehashCache] in *.
  set (cache0 := codehashCache (state_after_load env this)) in *.
  apply Forall_app in Hnofail. destruct Hnofail as [_ Hnofail].
  apply Forall_app in Hnofail. destruct Hnofail as [_ Hnofail].
  apply Forall_app in Hnofail. destruct Hnofail as [Hno _].
  destruct (refresh_batches_fresh env fileContents Hal
              (fileContents_of_consistent _ _ _ Hfcs)
              (make_batches (filesToUpdate cache0 fileContents)) 0%nat cache0) as [F1 F2].
  { intros fc'. rewrite make_batches_concat. apply filesToUpdate_In. }
  intros fc Hfc. destruct (needs_update cache0 fc) eqn:Hneeds.
  - apply (F2 Hno). rewrite make_batches_concat. unfold filesToUpdate.
    apply filter_In. split; assumption.
  - apply F1; assumption.
Qed.

(** A call on an object in whose cache every file has an entry with its
    current fingerprint makes no batch request. *)
Lemma call_fresh_no_requests env query this files fileContents :
  falsy (apiKey this) = false ->
  findFiles env = inr files ->
  fileContents_of env files = inr fileContents ->
  (forall fc, In fc fileContents -> fresh (codehashCache this) fc) ->
  batch_requests (trace_of (findClosestDartFiles env query this)) = [].
Proof.
  intros Hkey Hfiles Hfcs Hfresh.
  destruct (call_refresh env query this files fileContents Hkey Hfiles Hfcs)
    as (tl & r & t & Htl & Ht & ->).
  cbv zeta. unfold trace_of. cbn [snd].
  assert (Hnone : filesToUpdate (codehashCache (state_after_load env this)) fileContents
                  = []).
  { destruct fileContents as [|fc fcs']; [reflexivity|].
    rewrite state_after_load_nonempty; [apply filesToUpdate_fresh, Hfresh|].
    destruct (proj1 (fresh_iff _ _) (Hfresh fc (or_introl eq_refl)))
      as (entry & Hentry & _).
    intros Hsize. apply size_zero_empty in Hsize. rewrite Hsize in Hentry.
    rewrite lookup_empty in Hentry. discriminate. }
  rewrite Hnone. cbn [make_batches length slices refresh_batches fst snd].
  rewrite !batch_requests_app, (batch_requests_none tl Htl), (batch_requests_none t Ht).
  cbn [app]. rewrite (batch_requests_none (FindFiles :: map OpenTextDocument files)).
  - reflexivity.
  - constructor; [reflexivity|]. apply Forall_map, Forall_true. reflexivity.
Qed.

(** X14: edits that change only the whitespace of documents do not cost an
    embedding: after a call of which no batch failed, a call on the same
    files, whose documents differ from those of the first call in whitespace
    only, makes no batch request. *)
Theorem whitespace_edits_embed_nothing (env1 env2 : Env) (query1 query2 : jsstring)
    (this : Repo) :
  aligned_lengths env1 ->
  findFiles env2 = findFiles env1 ->
  (forall f, asRelativePath env2 f = asRelativePath env1 f) ->
  documents_differ_in_whitespace env1 env2 ->
  Forall (fun e => is_batch_failure e = false)
         (trace_of (findClosestDartFiles env1 query1 this)) ->
  batch_requests
    (trace_of (findClosestDartFiles env2 query2
                 (state_of (findClosestDartFiles env1 query1 this)))) = [].
Proof.
  intros Hal Hfind Hrel Hdocs Hnofail.
  pose proof (call_apiKey env1 query1 this) as Hkey1.
  destruct (falsy (apiKey this)) eqn:Hkey.
  { rewrite (findClosestDartFiles_no_key env2) by (rewrite Hkey1; exact Hkey).
    reflexivity. }
  assert (Hkey2 : falsy (apiKey (state_of (findClosestDartFiles env1 query1 this))) = false)
    by (rewrite Hkey1; exact Hkey).
  destruct (findFiles env2) as [e|files] eqn:Hfiles2.
  { destruct (call_no_listing env2 query2 _ e Hkey2 Hfiles2) as (tl & Htl & ->).
    unfold trace_of. cbn [snd]. rewrite batch_requests_app, (batch_requests_none tl Htl).
    reflexivity. }
  pose proof (fileContents_of_variant env1 env2 files Hdocs Hrel) as Hvar.
  destruct (fileContents_of env2 files) as [e|fcs2] eqn:Hfcs2.
  { destruct (call_no_document env2 query2 _ files e Hkey2 Hfiles2 Hfcs2)
      as (tl & Htl & ->).
    unfold trace_of. cbn [snd].
    rewrite !batch_requests_app, (batch_requests_none tl Htl).
    rewrite (batch_requests_none (FindFiles :: map OpenTextDocument files)); [reflexivity|].
    constructor; [reflexivity|]. apply Forall_map, Forall_true. reflexivity. }
  destruct (fileContents_of env1 files) as [e|fcs1] eqn:Hfcs1; [contradiction|].
  apply (call_fresh_no_requests env2 query2 _ files fcs2 Hkey2 Hfiles2 Hfcs2).
  intros fc2 Hfc2.
  assert (Hex : exists fc1, In fc1 fcs1 /\ same_key fc1 fc2).
  { clear - Hvar Hfc2. induction Hvar as [|a b l1 l2 Hab _ IH]; [destruct Hfc2|].
    destruct Hfc2 as [<-|Hin].
    - exists a. split; [left; reflexivity|exact Hab].
    - destruct (IH Hin) as (fc1 & H1 & H2). exists fc1. split; [right; exact H1|exact H2]. }
  destruct Hex as (fc1 & Hin1 & Hkey12).
  apply (fresh_same_key _ fc1 fc2 Hkey12).
  apply (call_leaves_files_fresh env1 query1 this files fcs1 Hal Hkey); auto.
Qed.

Lemma whitespace_edits_embed_nothing_witness :
  batch_requests
    (trace_of (findClosestDartFiles
                 (with_files (findFiles sample_env)
                             (fun _ => inr (lit "void  main( ) { }")) sample_env)
                 (lit "widgets")
                 (state_of (findClosestDartFiles sample_env (lit "entry point")
                                                 fresh_repo)))) = [].
Proof.
  apply (whitespace_edits_embed_nothing sample_env
           (with_files (findFiles sample_env)
                       (fun _ => inr (lit "void  main( ) { }")) sample_env)
           (lit "entry point") (lit "widgets") fresh_repo).
  - exact sample_env_aligned_lengths.
  - reflexivity.
  - reflexivity.
  - intros f. apply ws_variant_of_remove. reflexivity.
  - vm_compute. repeat constructor.
Defined.

(** ** Batches that fail and batches that succeed *)



(** X16: when the remote model fails on every batch, the call leaves the
    cache as it was when the refresh started: nothing is written for a
    batch that failed. *)
Theorem failed_batches_write_nothing (env : Env) (query : jsstring) (this : Repo)
    (files : list jsstring) (fileContents : list FileContent.t) :
  falsy (apiKey this) = false ->
  findFiles env = inr files ->
  fileContents_of env files = inr fileContents ->
  (forall i texts, exists e, batchEmbedContents env i texts = inl e) ->
  codehashCache (state_of (findClosestDartFiles env query this))
  = codehashCache (state_after_load env this).
Proof.
  intros Hkey Hfiles Hfcs Hdown.
  destruct (call_refresh env query this files fileContents Hkey Hfiles Hfcs)
    as (tl & r & t & _ & _ & ->).
  cbv zeta. unfold state_of. cbn [fst snd set_cache codehashCache].
  apply refresh_batches_all_failed, Hdown.
Qed.

Lemma failed_batches_write_nothing_witness :
  codehashCache
    (state_of (findClosestDartFiles (with_batchEmbedContents remote_down sample_env)
                                    (lit "entry point") stale_repo))
  = codehashCache (state_after_load (with_batchEmbedContents remote_down sample_env)
                                    stale_repo).
Proof.
  apply (failed_batches_write_nothing (with_batchEmbedContents remote_down sample_env)
           (lit "entry point") stale_repo [lit "/w/lib/main.dart"]
           [fileContent_of sample_env (lit "/w/lib/main.dart") (lit "void main() {}")]).
  - reflexivity.
  - reflexivity.
  - reflexivity.
  - intros i texts. eexists. reflexivity.
Defined.

(** ** Answers that are too short or too long *)

Lemma store_embeddings_error batch :
  forall embeddings index cache,
    (index <= length batch)%nat ->
    (store_embeddings batch embeddings index cache).2
    = if decide (index + length embeddings <= length batch)%nat
      then None else Some batch_index_error.
Proof.
  induction embeddings as [|emb embs IH]; intros index cache Hindex.
  - cbn [store_embeddings snd length]. destruct (decide _) as [|Hn]; [reflexivity|lia].
  - cbn [store_embeddings length].
    destruct (batch !! index) as [fc|] eqn:Hfc.
    + apply lookup_lt_Some in Hfc. rewrite IH by lia.
      destruct (decide (S index + length embs <= length batch)%nat),
               (decide (index + S (length embs) <= length batch)%nat);
        try reflexivity; lia.
    + apply lookup_ge_None in Hfc. cbn [snd].
      destruct (decide (index + S (length embs) <= length batch)%nat);
        [lia|reflexivity].
Qed.

Lemma store_embeddings_stored L batch :
  consistent L -> (forall fc, In fc batch -> In fc L) ->
  forall embeddings index cache k fc,
    (index <= k < index + length embeddings)%nat ->
    batch !! k = Some fc ->
    fresh (store_embeddings batch embeddings index cache).1 fc.
Proof.
  intros HL Hsub. induction embeddings as [|emb embs IH];
    intros index cache k fc Hk Hfc; [cbn in Hk; lia|].
  cbn [store_embeddings length] in *.
  destruct (batch !! index) as [fc0|] eqn:Hfc0.
  - destruct (decide (k = index)) as [->|Hne].
    + rewrite Hfc0 in Hfc. injection Hfc as <-.
      apply (store_embeddings_fresh L batch HL Hsub embs (S index)).
      * apply Hsub, list_elem_of_In, list_elem_of_lookup. eauto.
      * apply fresh_insert_same.
    + apply (IH (S index) _ k fc); [lia|exact Hfc].
  - apply lookup_ge_None in Hfc0. apply lookup_lt_Some in Hfc. lia.
Qed.

Lemma store_embeddings_frame_prefix batch p :
  forall embeddings index cache,
    (forall k fc, (index <= k < index + length embeddings)%nat ->
                  batch !! k = Some fc -> FileContent.path fc <> p) ->
    (store_embeddings batch embeddings index cache).1 !! p = cache !! p.
Proof.
  induction embeddings as [|emb embs IH]; intros index cache Hp; [reflexivity|].
  cbn [store_embeddings length] in *.
  destruct (batch !! index) as [fc|] eqn:Hfc; [|reflexivity].
  rewrite IH.
  - apply lookup_insert_ne. apply (Hp index fc); [lia|exact Hfc].
  - intros k fc' Hk. apply Hp. lia.
Qed.

(** X17: an answer of the remote model whose length is not the length of
    the batch is taken as far as it goes and never stops the call.  The
    embeddings are stored against the first files of the batch, in their
    order; when the answer is the shorter one nothing is logged and the
    entries of the remaining files stay as they were; when it is the longer
    one every file of the batch is stored and the [TypeError] of the first
    embedding in excess is logged as the failure of the batch. *)
Theorem processBatch_unaligned_answer (env : Env) (i : nat) (batch : list FileContent.t)
    (embeddings : list ContentEmbedding) (this : Repo) :
  batchEmbedContents env i (map FileContent.text batch) = inr embeddings ->
  consistent batch ->
  exists cache',
    processBatch env i batch this =
    (inr tt, set_cache cache' this,
     BatchEmbedContents (map FileContent.text batch)
       :: (if decide (length embeddings <= length batch)%nat
           then [] else [batch_failure batch_index_error])) /\
    (forall k fc, (k < length embeddings)%nat -> batch !! k = Some fc -> fresh cache' fc) /\
    (forall p,
        (forall k fc, (k < length embeddings)%nat -> batch !! k = Some fc ->
                      FileContent.path fc <> p) ->
        cache' !! p = codehashCache this !! p).
Proof.
  intros Hb Hcons. rewrite processBatch_eq. unfold refresh_batch. rewrite Hb.
  pose proof (store_embeddings_error batch embeddings 0%nat (codehashCache this)
                ltac:(lia)) as Herr.
  pose proof (store_embeddings_stored batch batch Hcons (fun fc H => H)
                embeddings 0%nat (codehashCache this)) as Hst.
  pose proof (store_embeddings_frame_prefix batch) as Hfr.
  destruct (store_embeddings batch embeddings 0 (codehashCache this)) as [c err] eqn:Hs.
  cbn [fst snd] in *. exists c. split; [|split].
  - cbn [Nat.add] in Herr. subst err.
    destruct (decide (length embeddings <= length batch)%nat); reflexivity.
  - intros k fc Hk Hfc. apply (Hst k fc); [lia|exact Hfc].
  - intros p Hp.
    specialize (Hfr p embeddings 0%nat (codehashCache this)).
    rewrite Hs in Hfr. cbn [fst] in Hfr. apply Hfr.
    intros k fc Hk. apply Hp. lia.
Qed.

Lemma processBatch_unaligned_answer_witness :
  exists cache',
    processBatch
      (with_batchEmbedContents
         (answers [{| values := [Num 1] |}; {| values := [Num 2] |}]) sample_env)
      0
      [fileContent_of sample_env (lit "/w/lib/main.dart") (lit "void main() {}")]
      fresh_repo =
    (inr tt, set_cache cache' fresh_repo,
     [BatchEmbedContents
        (map FileContent.text
           [fileContent_of sample_env (lit "/w/lib/main.dart") (lit "void main() {}")]);
      batch_failure batch_index_error]).
Proof.
  destruct (processBatch_unaligned_answer
              (with_batchEmbedContents
                 (answers [{| values := [Num 1] |}; {| values := [Num 2] |}]) sample_env)
              0%nat
              [fileContent_of sample_env (lit "/w/lib/main.dart") (lit "void main() {}")]
              [{| values := [Num 1] |}; {| values := [Num 2] |}]
              fresh_repo eq_refl) as (cache' & H & _).
  - intros a b [<-|[]] [<-|[]] _. reflexivity.
  - exists cache'. exact H.
Defined.

(** ** A call without a workspace folder, a query that cannot be embedded *)

Lemma load_trace_no_workspace env this :
  cache_path env = None ->
  Forall (fun e => is_cache_file_io e = false /\ forall q, e <> EmbedContent q)
         (load_trace env this).
Proof.
  intros Hp. unfold load_trace. destruct (Nat.eqb _ _); [|constructor].
  unfold loadCache, try_catch, bind, trace_of. rewrite cacheFilePath_eq, Hp. cbn.
  repeat constructor. discriminate.
Qed.

(** X18: without a workspace folder the path of the cache file cannot be
    computed: a call with a credential that has read the documents fails in
    [saveCache] and throws [Error('Failed to save the cache data.')]; it
    neither looks for, reads nor writes a cache file, and does not embed
    the query. *)
Theorem call_without_workspace_folder (env : Env) (query : jsstring) (this : Repo)
    (files : list jsstring) (fileContents : list FileContent.t) :
  workspaceFolder env = None ->
  falsy (apiKey this) = false ->
  findFiles env = inr files ->
  fileContents_of env files = inr fileContents ->
  result_of (findClosestDartFiles env query this) = inl save_error /\
  Forall (fun e => is_cache_file_io e = false /\ e <> EmbedContent query)
         (trace_of (findClosestDartFiles env query this)).
Proof.
  intros Hw Hkey Hfiles Hfcs.
  assert (Hp : cache_path env = None) by (unfold cache_path; rewrite Hw; reflexivity).
  set (this0 := state_after_load env this).
  set (rb := refresh_batches env
               (make_batches (filesToUpdate (codehashCache this0) fileContents)) 0
               (codehashCache this0)).
  assert (Hsave : save_outcome env rb.1
                  = (inl save_error,
                     [ConsoleError EmptyString (new_Error "No workspace folders found.")])).
  { unfold save_outcome. rewrite Hp. reflexivity. }
  pose proof (persistAndRank_save_fails env query files fileContents
                (set_cache rb.1 this0) save_error) as Hpr.
  cbn [set_cache codehashCache] in Hpr. rewrite Hsave in Hpr. specialize (Hpr eq_refl).
  rewrite (call_exact env query this files fileContents _ _ Hkey Hfiles Hfcs Hpr).
  split; [reflexivity|].
  unfold trace_of. cbn [snd].
  apply Forall_app. split.
  { eapply Forall_impl; [apply (load_trace_no_workspace env this Hp)|].
    intros e [He Hq]. split; [exact He|apply Hq]. }
  apply Forall_app. split.
  { constructor; [split; [reflexivity|discriminate]|].
    apply Forall_map, Forall_true. intros f. split; [reflexivity|discriminate]. }
  apply Forall_app. split.
  { apply refresh_batches_events; intros; (split; [reflexivity|discriminate]). }
  repeat constructor; discriminate.
Qed.

Lemma call_without_workspace_folder_witness :
  result_of (findClosestDartFiles (with_workspaceFolder None sample_env)
                                  (lit "entry point") fresh_repo)
  = inl save_error.
Proof.
  exact (proj1 (call_without_workspace_folder (with_workspaceFolder None sample_env)
                  (lit "entry point") fresh_repo [lit "/w/lib/main.dart"]
                  [fileContent_of sample_env (lit "/w/lib/main.dart")
                                  (lit "void main() {}")]
                  eq_refl eq_refl eq_refl eq_refl)).
Defined.



(** * Properties of the chat completion *)

Lemma pop_snoc {A} (l : list A) (x : A) : Completion.pop (l ++ [x]) = (Some x, l).
Proof.
  unfold Completion.pop. rewrite last_snoc, List.removelast_last. reflexivity.
Qed.

(** X20: with a credential, [getCompletion] counts the tokens of the last
    message of the prompt only: whatever the history holds, a last message
    of at most 30720 tokens is sent to a chat whose history is the rest of
    the prompt and the outcome of the chat is the outcome of the call
    (30720 itself is accepted); a last message of more tokens throws
    [Error('Input prompt exceeds the maximum token limit.')] and nothing is
    sent. *)
Theorem getCompletion_token_limit (cenv : Completion.ChatEnv) (this : Repo)
    (history : list Completion.Content) (m : Completion.Content) (n : R) :
  falsy (apiKey this) = false ->
  Completion.countTokens cenv (Completion.parts m) = inr (Num n) ->
  (n <= 30720 ->
   Completion.getCompletion cenv this (history ++ [m])
   = (Completion.sendMessage cenv history (Completion.parts m), history,
      [Completion.CountTokens (Completion.parts m); Completion.ConsoleLog (Num n);
       Completion.SendMessage history (Completion.parts m)])) /\
  (30720 < n ->
   Completion.getCompletion cenv this (history ++ [m])
   = (inl Completion.token_limit_error, history,
      [Completion.CountTokens (Completion.parts m); Completion.ConsoleLog (Num n)])).
Proof.
  intros Hkey Hcount. unfold Completion.getCompletion.
  rewrite Hkey, pop_snoc. cbn [Completion.parts_or_empty]. rewrite Hcount.
  unfold Completion.greater.
  split; intros Hn; destruct (Rlt_dec 30720 n) as [Hlt|Hge]; try lra; [|reflexivity].
  destruct (Completion.sendMessage cenv history (Completion.parts m)); reflexivity.
Qed.

Lemma getCompletion_token_limit_witness :
  Completion.getCompletion Completion.echo fresh_repo
    [Completion.user (lit "hello"); Completion.user (lit "there")]
  = (inr (lit "there"), [Completion.user (lit "hello")],
     [Completion.CountTokens (lit "there"); Completion.ConsoleLog (Num (INR 5));
      Completion.SendMessage [Completion.user (lit "hello")] (lit "there")]).
Proof.
  refine (proj1 (getCompletion_token_limit Completion.echo fresh_repo
                   [Completion.user (lit "hello")] (Completion.user (lit "there"))
                   (INR 5) eq_refl eq_refl) _).
  simpl. lra.
Defined.

(** X21: [getCompletion] takes the last message off the array of its
    caller whatever the outcome of the call is (the count failing, the
    limit exceeded, the chat failing or answering): with a credential the
    array is left without its last message, so a second call with the same
    array starts by counting the message before it. *)
Theorem getCompletion_shortens_prompt (cenv : Completion.ChatEnv) (this : Repo)
    (history : list Completion.Content) (m1 m2 : Completion.Content) :
  falsy (apiKey this) = false ->
  let after := (Completion.getCompletion cenv this (history ++ [m1; m2])).1.2 in
  after = history ++ [m1] /\
  head (Completion.getCompletion cenv this after).2
  = Some (Completion.CountTokens (Completion.parts m1)) /\
  (Completion.getCompletion cenv this after).1.2 = history.
Proof.
  intros Hkey.
  assert (Hgen : forall h m,
            (Completion.getCompletion cenv this (h ++ [m])).1.2 = h /\
            head (Completion.getCompletion cenv this (h ++ [m])).2
            = Some (Completion.CountTokens (Completion.parts m))).
  { intros h m. unfold Completion.getCompletion.
    rewrite Hkey, pop_snoc. cbn [Completion.parts_or_empty].
    destruct (Completion.countTokens cenv (Completion.parts m)) as [e|tokens];
      [split; reflexivity|].
    destruct (Completion.greater tokens 30720); [split; reflexivity|].
    destruct (Completion.sendMessage cenv h (Completion.parts m)); split; reflexivity. }
  cbv zeta.
  replace (history ++ [m1; m2]) with ((history ++ [m1]) ++ [m2])
    by (rewrite <- app_assoc; reflexivity).
  destruct (Hgen (history ++ [m1]) m2) as [-> _].
  destruct (Hgen history m1) as [H1 H2]. auto.
Qed.

Lemma getCompletion_shortens_prompt_witness :
  (Completion.getCompletion Completion.echo fresh_repo
     [Completion.user (lit "hello"); Completion.user (lit "there")]).1.2
  = [Completion.user (lit "hello")].
Proof.
  exact (proj1 (getCompletion_shortens_prompt Completion.echo fresh_repo []
                  (Completion.user (lit "hello")) (Completion.user (lit "there"))
                  eq_refl)).
Defined.

(** * Properties of the progress of [customizeCode] *)

Lemma ticks_spec (n : nat) (s : Progress.counters) :
  (0 <= Progress.progressPercentage s < 100)%Z ->
  (Progress.progressPercentage s mod 10 = 0)%Z ->
  Progress.progressPercentage (Progress.ticks n s).1
  = ((Progress.progressPercentage s + 10 * Z.of_nat n) mod 100)%Z /\
  Progress.sum (Progress.ticks n s).2
  = (Progress.progressPercentage (Progress.ticks n s).1 - Progress.progressPercentage s)%Z /\
  Forall (fun i => i = 10%Z \/ i = (-90)%Z) (Progress.ticks n s).2 /\
  length (Progress.ticks n s).2 = n.
Proof.
  revert s. induction n as [|n IH]; intros s Hr Hm.
  { cbn [Progress.ticks fst snd Progress.sum fold_right length].
    rewrite Z.add_0_r, Z.mod_small by lia. repeat split; [lia|constructor]. }
  cbn [Progress.ticks]. unfold Progress.tick.
  set (p := Z.rem (Progress.progressPercentage s + 10) 100).
  set (s' := {| Progress.progressPercentage := p;
                Progress.prevProgressPercentage := Progress.progressPercentage s |}).
  assert (Hp : p = ((Progress.progressPercentage s + 10) mod 100)%Z).
  { unfold p. apply Z.rem_mod_nonneg; lia. }
  assert (Hcases : (Progress.progressPercentage s <= 80 /\ p = Progress.progressPercentage s + 10
                    \/ Progress.progressPercentage s = 90 /\ p = 0)%Z).
  { rewrite Hp. clear Hp p s' IH.
    assert (Progress.progressPercentage s <= 80 \/ Progress.progressPercentage s = 90)%Z
      as [H|H].
    { pose proof (Z.div_mod (Progress.progressPercentage s) 10 ltac:(lia)). lia. }
    - left. split; [exact H|]. apply Z.mod_small. lia.
    - right. split; [exact H|]. rewrite H. reflexivity. }
  destruct (IH s') as (IH1 & IH2 & IH3 & IH4).
  { cbn. lia. }
  { cbn. destruct Hcases as [[_ ->]|[_ ->]]; [|reflexivity].
    rewrite <- Zplus_mod_idemp_l, Hm. reflexivity. }
  destruct (Progress.ticks n s') as [s'' increments]. cbn [fst snd] in *.
  change (Progress.progressPercentage s') with p in *.
  repeat split.
  - rewrite IH1, Hp, Zplus_mod_idemp_l. f_equal. lia.
  - cbn [Progress.sum fold_right]. fold (Progress.sum increments). rewrite IH2. lia.
  - constructor; [lia|exact IH3].
  - cbn [length]. rewrite IH4. reflexivity.
Qed.

(** X22: the increments that the timer of [customizeCode] reports follow
    the percentage as it wraps around: after [n] runs of the callback the
    percentage is [10 n mod 100], every increment reported is [10] or
    [-90], and their sum is the percentage; with the closing report of
    [100] the increments of a call add up to [100 + 10 n mod 100], which
    is [100] only when [n] is a multiple of ten. *)
Theorem progress_increments_wrap (n : nat) :
  Progress.progressPercentage (Progress.ticks n Progress.start).1
  = ((10 * Z.of_nat n) mod 100)%Z /\
  length (Progress.ticks n Progress.start).2 = n /\
  Forall (fun i => i = 10%Z \/ i = (-90)%Z) (Progress.ticks n Progress.start).2 /\
  Progress.sum (Progress.ticks n Progress.start).2
  = Progress.progressPercentage (Progress.ticks n Progress.start).1 /\
  Progress.sum (Progress.reported n) = (100 + (10 * Z.of_nat n) mod 100)%Z.
Proof.
  destruct (ticks_spec n Progress.start) as (H1 & H2 & H3 & H4);
    [cbn; lia|reflexivity|].
  cbn [Progress.start Progress.progressPercentage] in H1, H2.
  rewrite Z.add_0_l in H1. rewrite Z.sub_0_r in H2.
  repeat split; try assumption.
  unfold Progress.reported, Progress.sum. rewrite fold_right_app.
  cbn [fold_right].
  assert (Hshift : forall l a, fold_right Z.add a l = (fold_right Z.add 0 l + a)%Z).
  { induction l as [|x l IHl]; intros a; cbn [fold_right]; [lia|]. rewrite IHl. lia. }
  rewrite Hshift. fold (Progress.sum (Progress.ticks n Progress.start).2).
  rewrite H2, H1. lia.
Qed.

(** * Properties of the chat toggle *)

(** X23: invoked one after the other, the command [fluttergpt.toggleChat]
    executes the two workbench commands in turn, starting from the flag
    [isChatOpen] and whatever the sidebar shows: an invocation whose check
    of the API key fails executes nothing, logs nothing and leaves the
    flag, every other one logs the command, executes one workbench command
    and flips the flag. *)
Theorem toggleChat_alternates (checks : list bool) (isChatOpen : bool) :
  let n := length (List.filter (fun apiKeyValid => apiKeyValid) checks) in
  let r := Commands.invocations checks isChatOpen in
  Commands.executed r.2 = Commands.alternating isChatOpen n /\
  r.1 = (if Nat.even n then isChatOpen else negb isChatOpen) /\
  length r.2 = (2 * n)%nat.
Proof.
  cbv zeta. revert isChatOpen.
  induction checks as [|apiKeyValid checks IH]; intros isChatOpen.
  { repeat split. }
  cbn [Commands.invocations List.filter].
  destruct apiKeyValid; cbn [Commands.callback Commands.toggleChat].
  - destruct (IH (negb isChatOpen)) as (IH1 & IH2 & IH3).
    destruct (Commands.invocations checks (negb isChatOpen)) as [s' t'].
    cbn [fst snd] in *. cbn [length Commands.alternating].
    split; [|split].
    + unfold Commands.executed in *. cbn [app flat_map]. rewrite IH1. reflexivity.
    + rewrite IH2, Nat.even_succ, <- Nat.negb_even.
      destruct (Nat.even _), isChatOpen; reflexivity.
    + cbn [app length]. rewrite IH3. lia.
  - destruct (IH isChatOpen) as (IH1 & IH2 & IH3).
    destruct (Commands.invocations checks isChatOpen) as [s' t'].
    cbn [fst snd app] in *. auto.
Qed.

(** * The cache file that holds another value *)

(** ** The two readings of the methods agree *)

Lemma agrees_ret {A} (a : A) : agrees (Untyped.ret a) (ret a).
Proof. intros this. reflexivity. Qed.

Lemma agrees_throw {A} (e : thrown) : agrees (@Untyped.throw A e) (throw e).
Proof. intros this. reflexivity. Qed.

Lemma agrees_emit (e : event) : agrees (Untyped.emit e) (emit e).
Proof. intros this. reflexivity. Qed.

Lemma agrees_lift {A} (r : thrown + A) : agrees (Untyped.lift r) (lift r).
Proof. destruct r; intros this; reflexivity. Qed.

Lemma agrees_bind {A B} (m' : Untyped.M A) (m : M A) (f' : A -> Untyped.M B)
    (f : A -> M B) :
  agrees m' m -> (forall a, agrees (f' a) (f a)) ->
  agrees (Untyped.bind m' f') (bind m f).
Proof.
  intros Hm Hf this. unfold Untyped.bind, bind. rewrite Hm.
  destruct (m this) as [[[e|a] s] t]; cbn; [reflexivity|].
  rewrite Hf. destruct (f a s) as [[r s'] t']. reflexivity.
Qed.

Lemma agrees_try_catch {A} (m' : Untyped.M A) (m : M A) (h' : thrown -> Untyped.M A)
    (h : thrown -> M A) :
  agrees m' m -> (forall e, agrees (h' e) (h e)) ->
  agrees (Untyped.try_catch m' h') (try_catch m h).
Proof.
  intros Hm Hh this. unfold Untyped.try_catch, try_catch. rewrite Hm.
  destruct (m this) as [[[e|a] s] t]; cbn; [|reflexivity].
  rewrite Hh. destruct (h e s) as [[r s'] t']. reflexivity.
Qed.

Lemma agrees_mapM {A B} (f' : A -> Untyped.M B) (f : A -> M B) (l : list A) :
  (forall x, agrees (f' x) (f x)) -> agrees (Untyped.mapM f' l) (mapM f l).
Proof.
  intros Hf. induction l as [|x l IH]; cbn [Untyped.mapM mapM]; [apply agrees_ret|].
  apply agrees_bind; [apply Hf|]. intros y.
  apply agrees_bind; [exact IH|]. intros ys. apply agrees_ret.
Qed.

Lemma agrees_forEach {A} (f' : A -> nat -> Untyped.M unit) (f : A -> nat -> M unit)
    (l : list A) :
  (forall x i, agrees (f' x i) (f x i)) ->
  forall index, agrees (Untyped.forEach f' l index) (forEach f l index).
Proof.
  intros Hf. induction l as [|x l IH]; intros index;
    cbn [Untyped.forEach forEach]; [apply agrees_ret|].
  apply agrees_bind; [apply Hf|]. intros _. apply IH.
Qed.

Lemma agrees_handleError {A} (error : thrown) (message : string) :
  agrees (@Untyped.handleError A error message) (handleError error message).
Proof. intros this. reflexivity. Qed.

Lemma agrees_cacheFilePath env : agrees (Untyped.cacheFilePath env) (cacheFilePath env).
Proof.
  intros this. unfold Untyped.cacheFilePath, cacheFilePath.
  destruct (workspaceFolder env); reflexivity.
Qed.

Lemma agrees_saveCache env : agrees (Untyped.saveCache env) (saveCache env).
Proof.
  unfold Untyped.saveCache, saveCache. apply agrees_try_catch.
  - intros this. unfold Untyped.bind at 1, bind at 1.
    cbn [Untyped.get_cache get_cache untyped Untyped.codehashCache Untyped.stringify].
    pose proof (agrees_bind (Untyped.cacheFilePath env) (cacheFilePath env)
                  (fun cachePath =>
                     Untyped.bind
                       (Untyped.emit (WriteFile cachePath
                                        (JSON_stringify env (codehashCache this))))
                       (fun _ => Untyped.lift
                                   (writeFile env cachePath
                                      (JSON_stringify env (codehashCache this)))))
                  (fun cachePath =>
                     bind (emit (WriteFile cachePath
                                   (JSON_stringify env (codehashCache this))))
                          (fun _ => lift (writeFile env cachePath
                                            (JSON_stringify env (codehashCache this)))))
                  (agrees_cacheFilePath env)) as H.
    rewrite H.
    + destruct (bind (cacheFilePath env) _ this) as [[r s] t]. reflexivity.
    + intros cachePath. apply agrees_bind; [apply agrees_emit|].
      intros _. apply agrees_lift.
  - intros error. destruct (instanceof_Error error);
      [apply agrees_handleError|apply agrees_emit].
Qed.

Lemma untyped_parse env p text :
  no_null_file env -> readFile env p = inr text ->
  Untyped.parse env text
  = match JSON_parse env text with
    | inl e => inl e
    | inr cache => inr (Untyped.CacheObject cache)
    end.
Proof.
  intros Hnull Hread. unfold Untyped.parse.
  rewrite bool_decide_eq_false_2 by exact (Hnull p text Hread). reflexivity.
Qed.

Lemma agrees_loadCache env :
  no_null_file env -> agrees (Untyped.loadCache env) (loadCache env).
Proof.
  intros Hnull this. unfold Untyped.loadCache, loadCache, Untyped.try_catch, try_catch,
    Untyped.bind, bind.
  rewrite (agrees_cacheFilePath env this), cacheFilePath_eq.
  destruct (cache_path env) as [p|] eqn:Hp; cbn; [|reflexivity].
  destruct (existsSync env p); cbn; [|reflexivity].
  rewrite (agrees_cacheFilePath env this), cacheFilePath_eq, Hp; cbn.
  destruct (readFile env p) as [e|cacheData] eqn:Hread; cbn; [reflexivity|].
  rewrite (untyped_parse env p cacheData Hnull Hread).
  destruct (JSON_parse env cacheData) as [e|parsed]; reflexivity.
Qed.

Lemma agrees_readFileContents env dartFiles :
  agrees (Untyped.readFileContents env dartFiles) (readFileContents env dartFiles).
Proof.
  unfold Untyped.readFileContents, readFileContents.
  apply agrees_bind.
  - apply agrees_forEach. intros file _. apply agrees_emit.
  - intros _. apply agrees_mapM. intros file.
    apply agrees_bind; [apply agrees_lift|]. intros documentText. apply agrees_ret.
Qed.

Lemma untyped_get_entry key this :
  Untyped.get_entry key (untyped this) = (inr (codehashCache this !! key), untyped this, []).
Proof. reflexivity. Qed.

Lemma untyped_filter fileContents this :
  Untyped.filterM Untyped.needs_update fileContents (untyped this)
  = (inr (filesToUpdate (codehashCache this) fileContents), untyped this, []).
Proof.
  induction fileContents as [|fc l IH]; [reflexivity|].
  assert (Hn : Untyped.needs_update fc (untyped this)
               = (inr (needs_update (codehashCache this) fc), untyped this, [])).
  { unfold Untyped.needs_update. unfold Untyped.bind at 1. rewrite untyped_get_entry.
    unfold needs_update.
    destruct (codehashCache this !! FileContent.path fc); reflexivity. }
  cbn [Untyped.filterM]. unfold Untyped.bind at 1. rewrite Hn.
  unfold Untyped.bind at 1. rewrite IH.
  unfold filesToUpdate. cbn [List.filter].
  destruct (needs_update (codehashCache this) fc); reflexivity.
Qed.

Lemma agrees_set_entry key entry :
  agrees (Untyped.set_entry key entry)
         (bind get_cache (fun cache => put_cache (<[key := entry]> cache))).
Proof. intros this. reflexivity. Qed.

Lemma agrees_processBatch env i batch :
  agrees (Untyped.processBatch env i batch) (processBatch env i batch).
Proof.
  unfold Untyped.processBatch, processBatch. apply agrees_try_catch.
  - cbv zeta. apply agrees_bind; [apply agrees_emit|]. intros _.
    apply agrees_bind; [apply agrees_lift|]. intros batchEmbeddings.
    apply agrees_forEach. intros embedding index.
    destruct (batch !! index) as [fileContent|];
      [apply agrees_set_entry|apply agrees_throw].
  - intros error. apply agrees_emit.
Qed.

Lemma agrees_processBatches env batches :
  agrees (Untyped.processBatches env batches) (processBatches env batches).
Proof.
  unfold Untyped.processBatches, processBatches. apply agrees_forEach.
  intros batch i. apply agrees_processBatch.
Qed.

Lemma agrees_computeDistances dartFiles queryEmbedding :
  agrees (Untyped.computeDistances dartFiles queryEmbedding)
         (computeDistances dartFiles queryEmbedding).
Proof.
  unfold Untyped.computeDistances, computeDistances. apply agrees_mapM.
  intros file this.
  unfold Untyped.bind at 1. rewrite untyped_get_entry.
  unfold bind, get_cache.
  destruct (codehashCache this !! file) as [entry|]; reflexivity.
Qed.

Lemma agrees_persistAndRank env query dartFiles fileContents :
  agrees (Untyped.persistAndRank env query dartFiles fileContents)
         (persistAndRank env query dartFiles fileContents).
Proof.
  unfold Untyped.persistAndRank, persistAndRank.
  apply agrees_bind; [apply agrees_saveCache|]. intros _.
  apply agrees_bind; [apply agrees_emit|]. intros _.
  apply agrees_bind; [apply agrees_lift|]. intros queryEmbedding.
  apply agrees_bind; [apply agrees_computeDistances|]. intros distances. cbv zeta.
  apply agrees_bind; [apply agrees_emit|]. intros _.
  apply agrees_bind; [apply agrees_emit|]. intros _.
  apply agrees_ret.
Qed.

Lemma agrees_refreshAndRank env query :
  agrees (Untyped.refreshAndRank env query) (refreshAndRank env query).
Proof.
  unfold Untyped.refreshAndRank, refreshAndRank.
  apply agrees_bind; [apply agrees_emit|]. intros _.
  apply agrees_bind; [apply agrees_lift|]. intros dartFiles.
  apply agrees_bind; [apply agrees_readFileContents|]. intros fileContents.
  intros this. unfold Untyped.bind at 1. rewrite untyped_filter.
  unfold bind at 1. cbn [get_cache]. cbv zeta.
  pose proof (agrees_bind
                (Untyped.processBatches env
                   (make_batches (filesToUpdate (codehashCache this) fileContents)))
                (processBatches env
                   (make_batches (filesToUpdate (codehashCache this) fileContents)))
                (fun _ => Untyped.persistAndRank env query dartFiles fileContents)
                (fun _ => persistAndRank env query dartFiles fileContents)
                (agrees_processBatches env _)
                (fun _ => agrees_persistAndRank env query dartFiles fileContents) this) as H.
  rewrite H.
  destruct (bind (processBatches env _) _ this) as [[r s] t]. reflexivity.
Qed.

Lemma agrees_rethrow error : agrees (Untyped.rethrow error) (rethrow error).
Proof. intros this. reflexivity. Qed.

(** Unless the cache file holds the JSON text [null], a call does on an
    object that holds a cache what the methods above say. *)
Lemma agrees_findClosestDartFiles env query :
  no_null_file env ->
  agrees (Untyped.findClosestDartFiles env query) (findClosestDartFiles env query).
Proof.
  intros Hnull. unfold Untyped.findClosestDartFiles, findClosestDartFiles.
  apply agrees_try_catch; [|apply agrees_rethrow].
  intros this. cbn [untyped Untyped.apiKey].
  destruct (falsy (apiKey this)); [reflexivity|].
  fold (untyped this).
  assert (Hguard :
            Untyped.bind Untyped.keys_length
              (fun n => if Nat.eqb n 0 then Untyped.loadCache env else Untyped.ret tt)
              (untyped this)
            = untyped_outcome
                ((if Nat.eqb (size (codehashCache this)) 0 then loadCache env else ret tt)
                   this)).
  { unfold Untyped.bind at 1.
    change (Untyped.keys_length (untyped this))
      with (@inr thrown nat (size (codehashCache this)), untyped this, @nil event).
    cbv beta iota.
    destruct (Nat.eqb (size (codehashCache this)) 0); cbv beta iota.
    - rewrite (agrees_loadCache env Hnull this).
      destruct (loadCache env this) as [[r s] t]. reflexivity.
    - reflexivity. }
  unfold Untyped.bind at 1. rewrite Hguard. unfold bind at 1.
  destruct ((if Nat.eqb (size (codehashCache this)) 0 then loadCache env else ret tt) this)
    as [[[e|[]] s] t]; unfold untyped_outcome at 1; cbn [fst snd]; [reflexivity|].
  rewrite (agrees_refreshAndRank env query s).
  destruct (refreshAndRank env query s) as [[r s'] t']. reflexivity.
Qed.

(** ** Loading *)



(** C5, where the code departs from it.  The cache file of the workspace
    holds the JSON text [null].  [loadCache] reads it without an error and
    without a report, and leaves [null], not the empty mapping, in the
    field.  The call does not go on with an empty cache: the filter of the
    diffing step reads the field for the first file, and the call throws
    that [TypeError] to its caller.  The field keeps [null], and every
    later call on the object throws at [Object.keys].  In the same
    workspace a cache file that does not parse does not stop the call. *)
Theorem null_cache_file_aborts_call :
  let env := with_cache_text (lit "null") sample_env in
  let call := Untyped.findClosestDartFiles env (lit "entry point") Untyped.fresh_repo in
  let error :=
    ErrorObject "TypeError" "Cannot read properties of null (reading '/w/lib/main.dart')" in
  Untyped.loadCache env Untyped.fresh_repo
  = (inr tt, Untyped.set_cache Untyped.Null Untyped.fresh_repo,
     [ExistsSync sample_cache_path; ReadFile sample_cache_path]) /\
  Untyped.result_of call = inl error /\
  Untyped.trace_of call
  = [ExistsSync sample_cache_path; ReadFile sample_cache_path; FindFiles;
     OpenTextDocument (lit "/w/lib/main.dart");
     ConsoleError "Error finding closest Dart files: " error] /\
  Untyped.codehashCache (Untyped.state_of call) = Untyped.Null /\
  Untyped.result_of
    (Untyped.findClosestDartFiles env (lit "entry point") (Untyped.state_of call))
  = inl (ErrorObject "TypeError" "Cannot convert undefined or null to object") /\
  exists ranked,
    Untyped.result_of
      (Untyped.findClosestDartFiles (with_corrupt_cache_file sample_env)
                                    (lit "entry point") Untyped.fresh_repo)
    = inr ranked.
Proof.
  cbv zeta. repeat split; try (vm_compute; reflexivity).
  eexists. vm_compute. reflexivity.
Qed.


